(** * ppMEG: the parallel-port manager of [ppMEG.c]

    A shallow embedding of the MEX entry point [mexFunction] and of the
    helpers it calls ([openPort], [writePort], [readPort], [unloadPort],
    [unloadAll]), followed by the properties of the port manager.

    - The four file-scope variables of the C file are fields of [state].
    - The Linux calls the code issues ([open], [ioctl], [close]) are answered
      by a [kernel]: a function of the calls made so far and of the call at
      hand.  Every call is appended to the [trace], so two calls never see
      the same history and any run of the real system is the run of some
      [kernel].
    - [mexErrMsgTxt] does not return: it is the [Throw] outcome, which keeps
      the state the statics had when it was raised.
    - What the C source leaves undefined (a NULL action string, a double
      outside the range of [unsigned char], an index outside an array) is
      the [Undef] outcome. *)

From Stdlib Require Import ZArith String Ascii List Lia Bool.
From Stdlib Require Import SpecFloat.
From stdpp Require Import base list strings.
Import ListNotations.

Local Open Scope string_scope.
Local Open Scope Z_scope.
Local Open Scope list_scope.

(** ** Data *)

(** The ppdev requests used by the code.  [PPWDATA] carries the byte its
    pointer argument refers to. *)
Inductive ppreq : Type :=
| PPCLAIM
| PPRELEASE
| PPWDATA (byte : Z)
| PPRSTATUS.

Inductive call : Type :=
| sys_open (path : string)          (* open(path, O_RDWR) *)
| sys_ioctl (fd : Z) (req : ppreq)  (* ioctl(fd, req, ...) *)
| sys_close (fd : Z).               (* close(fd) *)

(** What a call gives back: its return value and, for [PPRSTATUS], the value
    stored through the pointer argument. *)
Record reply : Type := mkReply { ret : Z; stored : Z }.

Definition event : Type := call * reply.

Definition kernel : Type := list event -> call -> reply.

(** The arguments MATLAB hands over: a char array or a real double scalar. *)
Inductive mxArray : Type :=
| mxChar (s : string)
| mxDouble (d : spec_float).

Record state : Type := mkState {
  pports : list Z;              (* static int pports[] = {0, 0, 0} *)
  addresses : list string;      (* static char addresses[3][15] *)
  use_multiple_ports : Z;       (* static int use_multiple_ports = 1 *)
  writing_port_idx : Z;         (* static int writing_port_idx = 1 *)
  trace : list event;           (* the system calls made so far *)
  console : list string;        (* the lines given to mexPrintf *)
  at_exit : bool                (* mexAtExit(unloadAll) has been registered *)
}.

Definition initial : state :=
  {| pports := [0; 0; 0];
     addresses := ["/dev/parport0"; "/dev/parport1"; "/dev/parport4"];
     use_multiple_ports := 1;
     writing_port_idx := 1;
     trace := [];
     console := [];
     at_exit := false |}.

Definition with_pports (v : list Z) (s : state) : state :=
  {| pports := v; addresses := addresses s;
     use_multiple_ports := use_multiple_ports s;
     writing_port_idx := writing_port_idx s;
     trace := trace s; console := console s; at_exit := at_exit s |}.

Definition with_use_multiple_ports (v : Z) (s : state) : state :=
  {| pports := pports s; addresses := addresses s;
     use_multiple_ports := v;
     writing_port_idx := writing_port_idx s;
     trace := trace s; console := console s; at_exit := at_exit s |}.

Definition with_writing_port_idx (v : Z) (s : state) : state :=
  {| pports := pports s; addresses := addresses s;
     use_multiple_ports := use_multiple_ports s;
     writing_port_idx := v;
     trace := trace s; console := console s; at_exit := at_exit s |}.

Definition with_trace (v : list event) (s : state) : state :=
  {| pports := pports s; addresses := addresses s;
     use_multiple_ports := use_multiple_ports s;
     writing_port_idx := writing_port_idx s;
     trace := v; console := console s; at_exit := at_exit s |}.

Definition with_console (v : list string) (s : state) : state :=
  {| pports := pports s; addresses := addresses s;
     use_multiple_ports := use_multiple_ports s;
     writing_port_idx := writing_port_idx s;
     trace := trace s; console := v; at_exit := at_exit s |}.

Definition with_at_exit (v : bool) (s : state) : state :=
  {| pports := pports s; addresses := addresses s;
     use_multiple_ports := use_multiple_ports s;
     writing_port_idx := writing_port_idx s;
     trace := trace s; console := console s; at_exit := v |}.

(** ** The monad of the MEX code: state, errors, undefined behaviour *)

Inductive outcome (A : Type) : Type :=
| Ret (a : A)
| Throw (msg : string)
| Undef.
Arguments Ret {A} a.
Arguments Throw {A} msg.
Arguments Undef {A}.

Definition M (A : Type) : Type := state -> outcome A * state.

Definition ret_ {A} (a : A) : M A := fun s => (Ret a, s).

Definition bind {A B} (m : M A) (f : A -> M B) : M B :=
  fun s =>
    match m s with
    | (Ret a, s') => f a s'
    | (Throw msg, s') => (Throw msg, s')
    | (Undef, s') => (Undef, s')
    end.

Declare Scope prog_scope.
Delimit Scope prog_scope with prog.
Notation "x <- m ;; k" := (bind m (fun x => k))
  (at level 100, m at next level, right associativity) : prog_scope.
Notation "m ;;; k" := (bind m (fun _ => k))
  (at level 100, right associativity) : prog_scope.
Local Open Scope prog_scope.

Definition mexErrMsgTxt {A} (msg : string) : M A := fun s => (Throw msg, s).

Definition undefined {A} : M A := fun s => (Undef, s).

(** [mexPrintf]: the line goes to the console.  A line that prints errno
    or a descriptor is kept as its format string. *)
Definition mexPrintf (line : string) : M unit :=
  fun s => (Ret tt, with_console (console s ++ [line]) s).

Definition get {A} (f : state -> A) : M A := fun s => (Ret (f s), s).

Definition put (f : state -> state) : M unit := fun s => (Ret tt, f s).

(** [a[i]] as an rvalue: outside the array the C behaviour is undefined. *)
Definition index {A} (a : state -> list A) (i : nat) : M A :=
  fun s =>
    match a s !! i with
    | Some x => (Ret x, s)
    | None => (Undef, s)
    end.

(** [pports[i] = v]. *)
Definition set_pport (i : nat) (v : Z) : M unit :=
  fun s =>
    if decide (i < length (pports s))%nat
    then (Ret tt, with_pports (<[i := v]> (pports s)) s)
    else (Undef, s).

(** [for (int i = 0; i < n; i++) body], with the locals the body updates
    threaded through as [a]. *)
Fixpoint for_each {A} (l : list nat) (body : nat -> A -> M A) (a : A) : M A :=
  match l with
  | [] => ret_ a
  | i :: l' => a' <- body i a ;; for_each l' body a'
  end.

Definition nl : string := String "010" EmptyString.

Definition msg_open : string :=
  "Couldn't open parallel port (user have permission on the device ? user in the good group ?) " +:+ nl.
Definition msg_claim : string := "PPCLAIM ioctl Error".
Definition msg_wdata : string := "PPWDATA ioctl Error " +:+ nl.
Definition msg_rstatus : string := "PPRSTATUS ioctl Error " +:+ nl.
Definition msg_not_opened : string := "Parallel port was not opened " +:+ nl.
Definition msg_release : string := "PPRELEASE ioctl Error" +:+ nl.
Definition msg_close : string := "Close Error" +:+ nl.
Definition msg_nargs_open : string := "Incorrect number of arguments.".
Definition msg_nargs_write : string :=
  "You need to specify the message to send [0-255]".
Definition msg_nargs_read : string :=
  "Error calling read: no argument should be given".
Definition msg_nargs_close : string :=
  "Error calling close: no argument should be given".
Definition msg_action : string := "No valid action specified : o / w / r / c".

(** ** Conversions of the MEX interface and of C *)

(** [mxArrayToString]: NULL ([None]) when the array is not a char array. *)
Definition mxArrayToString (a : mxArray) : option string :=
  match a with
  | mxChar s => Some s
  | mxDouble _ => None
  end.

(** [action[0]]: the terminating NUL when the string is empty. *)
Definition first_char (s : string) : ascii :=
  match s with
  | EmptyString => zero
  | String c _ => c
  end.

(** [mxGetScalar]: the first element as a double; not defined on an empty
    array. *)
Definition mxGetScalar (a : mxArray) : option spec_float :=
  match a with
  | mxDouble d => Some d
  | mxChar EmptyString => None
  | mxChar (String c _) =>
      match N_of_ascii c with
      | N0 => Some (S754_zero false)
      | Npos p => Some (S754_finite false p 0)
      end
  end.

(** The integral part of a finite double, fraction discarded. *)
Definition integral_part (d : spec_float) : option Z :=
  match d with
  | S754_zero _ => Some 0
  | S754_finite sign m e =>
      let mag := Z.shiftl (Zpos m) e in
      Some (if sign then - mag else mag)
  | S754_infinity _ => None
  | S754_nan => None
  end.

(** [(unsigned char) d]: C defines the conversion only when the integral
    part fits the type. *)
Definition to_uchar (d : spec_float) : option Z :=
  match integral_part d with
  | Some v => if (0 <=? v) && (v <=? 255) then Some v else None
  | None => None
  end.

(** [mxCreateDoubleScalar(message)] of an [unsigned char]: the double that
    has this integer value, kept as the integer. *)
Definition mxCreateDoubleScalar (message : Z) : Z := message.

Section Manager.

Variable k : kernel.

Definition syscall (c : call) : M reply :=
  fun s =>
    let r := k (trace s) c in
    (Ret r, with_trace (trace s ++ [(c, r)]) s).

Definition PrintHelp : M unit :=
  mexPrintf ("parallelport usage : " +:+ nl) ;;;
  mexPrintf ("parallelport('open', port_address)  : opens the device at the specified address " +:+ nl) ;;;
  mexPrintf ("parallelport('write',message)       : sends the message = {0, 1, 2, ..., 255} uint8 " +:+ nl) ;;;
  mexPrintf ("parallelport('read')                : reads the value currently set in the port " +:+ nl) ;;;
  mexPrintf ("parallelport('close')               : closes the device " +:+ nl) ;;;
  mexPrintf nl.

(** [openPort]: a NULL address makes [open] fail (EFAULT) without reaching
    a device. *)
Definition openPort (pp_address : option string) : M Z :=
  match pp_address with
  | None => mexErrMsgTxt msg_open
  | Some path =>
      o <- syscall (sys_open path) ;;
      let pport := ret o in
      if pport <? 0 then mexErrMsgTxt msg_open
      else
        c <- syscall (sys_ioctl pport PPCLAIM) ;;
        if ret c <? 0
        then mexPrintf ("PPCLAIM ioctl Error : %s (%d)" +:+ nl) ;;;
             mexErrMsgTxt msg_claim
        else mexPrintf ("Parallel " +:+ path +:+ " opened successfully " +:+ nl) ;;;
             ret_ pport
  end.

Definition writePort (message : Z) (pport : Z) : M unit :=
  if 0 <? pport
  then
    r <- syscall (sys_ioctl pport (PPWDATA message)) ;;
    if ret r <? 0
    then mexPrintf ("PPWDATA ioctl Error : %s (%d)" +:+ nl) ;;;
         mexErrMsgTxt msg_wdata
    else ret_ tt
  else mexErrMsgTxt msg_not_opened.

(** [readPort] returns the byte it leaves in [*data]. *)
Definition readPort (pport : Z) : M Z :=
  if 0 <? pport
  then
    r <- syscall (sys_ioctl pport PPRSTATUS) ;;
    if ret r <? 0
    then mexPrintf ("PPRSTATUS ioctl Error : %s (%d)" +:+ nl) ;;;
         mexErrMsgTxt msg_rstatus
    else ret_ (stored r mod 256)
  else mexErrMsgTxt msg_not_opened.

Definition unloadPort (pport : Z) : M Z :=
  if 0 <? pport
  then
    r <- syscall (sys_ioctl pport PPRELEASE) ;;
    if ret r <? 0
    then mexPrintf ("PPRELEASE ioctl Error (with pport = %d): %s (%d)" +:+ nl) ;;;
         mexErrMsgTxt msg_release
    else
      c <- syscall (sys_close pport) ;;
      if ret c <? 0
      then mexPrintf ("Close Error (with pport = %d): %s (%d)" +:+ nl) ;;;
           mexErrMsgTxt msg_close
      else mexPrintf ("Parallel port has been closed " +:+ nl) ;;;
           ret_ 0
  else ret_ pport.

(** [pports[i] = unloadPort(pports[i])]. *)
Definition unload_slot (i : nat) : M unit :=
  p <- index pports i ;;
  p' <- unloadPort p ;;
  set_pport i p'.

Definition unloadAll : M unit :=
  for_each (seq 0 3) (fun i _ => unload_slot i) tt.

(** The body of the loop of [case 'o']. *)
Definition reopen_slot (i : nat) : M unit :=
  unload_slot i ;;;
  a <- index addresses i ;;
  p <- openPort (Some a) ;;
  set_pport i p.

Definition case_open (prhs : list mxArray) : M (list Z) :=
  let nrhs := length prhs in
  if decide (nrhs = 1%nat)
  then for_each (seq 0 3) (fun i _ => reopen_slot i) tt ;;; ret_ []
  else if decide (nrhs = 2%nat)
  then
    put (with_use_multiple_ports 0) ;;;
    let user_address := default None (mxArrayToString <$> prhs !! 1%nat) in
    put (with_writing_port_idx 0) ;;;
    unload_slot 0 ;;;
    p <- openPort user_address ;;
    set_pport 0 p ;;;
    ret_ []
  else mexErrMsgTxt msg_nargs_open.

Definition case_write (prhs : list mxArray) : M (list Z) :=
  let nrhs := length prhs in
  if decide (nrhs <> 2%nat) then mexErrMsgTxt msg_nargs_write
  else
    match default None (mxGetScalar <$> prhs !! 1%nat) with
    | None => undefined
    | Some d =>
        match to_uchar d with
        | None => undefined
        | Some message =>
            idx <- get writing_port_idx ;;
            if idx <? 0 then undefined
            else
              p <- index pports (Z.to_nat idx) ;;
              writePort message p ;;;
              ret_ []
        end
    end.

Definition case_read (prhs : list mxArray) : M (list Z) :=
  let nrhs := length prhs in
  if decide (nrhs <> 1%nat) then mexErrMsgTxt msg_nargs_read
  else
    multi <- get use_multiple_ports ;;
    if multi =? 0
    then
      p <- index pports 0 ;;
      message <- readPort p ;;
      ret_ [mxCreateDoubleScalar message]
    else
      for_each (seq 0 3)
        (fun i plhs =>
           p <- index pports i ;;
           message <- readPort p ;;
           ret_ (plhs ++ [mxCreateDoubleScalar message]))
        [].

Definition case_close (prhs : list mxArray) : M (list Z) :=
  let nrhs := length prhs in
  if decide (nrhs <> 1%nat) then mexErrMsgTxt msg_nargs_close
  else
    unloadAll ;;;
    put (with_use_multiple_ports 1) ;;;
    put (with_writing_port_idx 1) ;;;
    ret_ [].

Definition mexAtExit : M unit := put (with_at_exit true).

(** The entry point.  [prhs] is the argument array ([nrhs] its length); the
    result lists the values assigned to [plhs[0]], [plhs[1]], ... *)
Definition mexFunction (prhs : list mxArray) : M (list Z) :=
  match prhs with
  | [] => PrintHelp ;;; ret_ []
  | a0 :: _ =>
      match mxArrayToString a0 with
      | None => undefined
      | Some action =>
          let c := first_char action in
          plhs <-
            (if Ascii.eqb c "o" then case_open prhs
             else if Ascii.eqb c "w" then case_write prhs
             else if Ascii.eqb c "r" then case_read prhs
             else if Ascii.eqb c "c" then case_close prhs
             else mexErrMsgTxt msg_action) ;;
          mexAtExit ;;;
          ret_ plhs
      end
  end.

End Manager.

(** A session: the calls MATLAB makes, one after the other.  The statics
    live as long as the MEX file is loaded, so each call starts in the
    state the previous one left, also when that one raised an error. *)
Fixpoint session (k : kernel) (cmds : list (list mxArray)) (s : state) : state :=
  match cmds with
  | [] => s
  | prhs :: rest => session k rest (mexFunction k prhs s).2
  end.

(** The states a session can be in. *)
Inductive reachable (k : kernel) : state -> Prop :=
| reach_initial : reachable k initial
| reach_call s prhs : reachable k s -> reachable k (mexFunction k prhs s).2.

(** ** A test double for the ppdev driver

    [ppdev devices] knows the device nodes [devices].  [open] gives the
    lowest descriptor from 3 on that is not in use, or -1 for an unknown
    path; [ioctl] and [close] succeed on descriptors that are open; the
    status pins read back the last byte written to the data pins. *)

Fixpoint open_fds (tr : list event) : list Z :=
  match tr with
  | [] => []
  | (sys_open _, r) :: tr' =>
      if ret r <? 0 then open_fds tr' else ret r :: open_fds tr'
  | (sys_close fd, r) :: tr' =>
      if ret r <? 0 then open_fds tr'
      else filter (fun x => x <> fd) (open_fds tr')
  | _ :: tr' => open_fds tr'
  end.

Fixpoint lowest_free (fuel : nat) (fd : Z) (used : list Z) : Z :=
  match fuel with
  | O => fd
  | S fuel' =>
      if bool_decide (fd ∈ used) then lowest_free fuel' (fd + 1) used else fd
  end.

Fixpoint data_pins (tr : list event) : Z :=
  match tr with
  | [] => 0
  | (sys_ioctl _ (PPWDATA b), r) :: tr' => if ret r <? 0 then data_pins tr' else b
  | _ :: tr' => data_pins tr'
  end.

Definition ppdev (devices : list string) : kernel :=
  fun tr c =>
    let used := open_fds (rev tr) in
    match c with
    | sys_open path =>
        if bool_decide (path ∈ devices)
        then mkReply (lowest_free (length used) 3 used) 0
        else mkReply (-1) 0
    | sys_ioctl fd PPRSTATUS =>
        if bool_decide (fd ∈ used) then mkReply 0 (data_pins (rev tr))
        else mkReply (-1) 0
    | sys_ioctl fd _ => mkReply (if bool_decide (fd ∈ used) then 0 else -1) 0
    | sys_close fd => mkReply (if bool_decide (fd ∈ used) then 0 else -1) 0
    end.

Definition three_ports : kernel :=
  ppdev ["/dev/parport0"; "/dev/parport1"; "/dev/parport4"].

Definition one_port : kernel := ppdev ["/dev/parport0"].

(** The double with the integer value [p]. *)
Definition double_of_byte (p : positive) : mxArray := mxDouble (S754_finite false p 0).

(** Sessions used as examples: after [ppMEG('open')], after
    [ppMEG('open', '/dev/parport1')], and the steps of [ppMEG('open')] on a
    machine that has only [/dev/parport0]. *)
Definition opened_all : state := session three_ports [[mxChar "open"]] initial.

Definition opened_one : state :=
  session three_ports [[mxChar "open"; mxChar "/dev/parport1"]] initial.

Definition lone_slot0 : state :=
  (for_each (seq 0 1) (fun j _ => reopen_slot one_port j) tt initial).2.

Definition lone_slot1_closed : state := (unload_slot one_port 1 lone_slot0).2.

Definition lone_slot1_failed : state :=
  (openPort one_port (Some "/dev/parport1") lone_slot1_closed).2.

(** ** Vocabulary of the properties *)

(** The test the source makes of a handle: [pport > 0]. *)
Definition is_open (p : Z) : bool := 0 <? p.

Definition multi_port_mode (s : state) : bool :=
  negb (use_multiple_ports s =? 0).

Definition statics (s : state) : list Z * list string * Z * Z :=
  (pports s, addresses s, use_multiple_ports s, writing_port_idx s).

Definition modes (s : state) : Z * Z :=
  (use_multiple_ports s, writing_port_idx s).

Definition succeeded (e : event) : Prop := 0 <= ret e.2.

Definition calls (evs : list event) : list call := map fst evs.

(** The system calls made between [s] and a later state [s']. *)
Definition since (s s' : state) : list event :=
  drop (length (trace s)) (trace s').

(** What [unloadPort] does with a handle. *)
Definition closing (p : Z) : list call :=
  if is_open p then [sys_ioctl p PPRELEASE; sys_close p] else [].

Definition unloaded (p : Z) : Z := if is_open p then 0 else p.

(** [s'] is [s] after the calls [evs], the statics untouched. *)
Definition advances (s s' : state) (evs : list event) : Prop :=
  statics s' = statics s /\ trace s' = trace s ++ evs.

(** The trace ran from [tr] to [tr'] and its last call failed. *)
Definition aborted (tr tr' : list event) : Prop :=
  exists evs e, tr' = tr ++ evs ++ [e] /\ ret e.2 < 0.

(** [m] leaves the observation [f] of the state as it was, whatever its
    outcome. *)
Definition preserves {A X} (f : state -> X) (m : M A) : Prop :=
  forall s, f (m s).2 = f s.

(** [m] only adds to the trace. *)
Definition grows {A} (m : M A) : Prop :=
  forall s, trace s `prefix_of` trace (m s).2.

(** Observations that do not look at the trace or at the console. *)
Definition blind_to_io {X} (f : state -> X) : Prop :=
  (forall v s, f (with_trace v s) = f s) /\
  (forall v s, f (with_console v s) = f s).

(** What [mexFunction] makes of the result of the case it took: the exit
    hook is registered when the case returned. *)
Definition registered (r : outcome (list Z) * state) : outcome (list Z) * state :=
  match r with
  | (Ret plhs, s') => (Ret plhs, with_at_exit true s')
  | (Throw msg, s') => (Throw msg, s')
  | (Undef, s') => (Undef, s')
  end.

(** Observations that do not look at [pports[i]]. *)
Definition blind_to_slot {X} (i : nat) (f : state -> X) : Prop :=
  forall v s, (i < length (pports s))%nat ->
              f (with_pports (<[i := v]> (pports s)) s) = f s.

(** The invariant of the mode flags. *)
Definition modes_agree (s : state) : Prop :=
  (writing_port_idx s = 0 \/ writing_port_idx s = 1) /\
  (multi_port_mode s = true <-> writing_port_idx s = 1).

(** The state of a loaded MEX file: three handles, none negative, the
    three default addresses, and slot 0 or slot 1 as the write target. *)
Definition well_formed (s : state) : Prop :=
  length (pports s) = 3%nat /\
  Forall (fun p => 0 <= p) (pports s) /\
  addresses s = addresses initial /\
  (writing_port_idx s = 0 \/ writing_port_idx s = 1).

(** Arguments the code handles without leaving what C defines: the action
    is a char array and, for [w], the second argument has a first element
    whose integral part fits [unsigned char]. *)
Definition well_typed (prhs : list mxArray) : Prop :=
  match prhs with
  | [] => True
  | a0 :: _ =>
      exists action, a0 = mxChar action /\
        (first_char action = "w"%char ->
         forall arg, prhs !! 1%nat = Some arg ->
           exists d b, mxGetScalar arg = Some d /\ to_uchar d = Some b)
  end.

(** From a state in [I], [m] ends in a state in [I]; what it returns is in
    [Q]; and its behaviour is undefined only if [U]. *)
Definition triple {A} (U : Prop) (I : state -> Prop) (m : M A) (Q : A -> Prop) : Prop :=
  forall s, I s ->
    match m s with
    | (Ret a, s') => Q a /\ I s'
    | (Throw _, s') => I s'
    | (Undef, s') => U /\ I s'
    end.

(** A kernel on which every call returns 0: [open] gives descriptor 0, as
    it does in a process whose standard input is closed. *)
Definition descriptor_zero : kernel := fun _ _ => mkReply 0 0.

(** The test double with a driver that refuses every claim, and with one
    that refuses to release descriptor [fd]. *)
Definition claim_refused : kernel :=
  fun tr c =>
    match c with
    | sys_ioctl _ PPCLAIM => mkReply (-1) 0
    | _ => three_ports tr c
    end.

Definition release_refused (fd : Z) : kernel :=
  fun tr c =>
    match c with
    | sys_ioctl fd' PPRELEASE =>
        if fd' =? fd then mkReply (-1) 0 else three_ports tr c
    | _ => three_ports tr c
    end.

(** ** Frame rules *)

Section Frame.

Context {X : Type} (f : state -> X).

Lemma preserves_ret {A} (a : A) : preserves f (ret_ a).
Proof. intros s. reflexivity. Qed.

Lemma preserves_throw {A} msg : preserves f (@mexErrMsgTxt A msg).
Proof. intros s. reflexivity. Qed.

Lemma preserves_undefined {A} : preserves f (@undefined A).
Proof. intros s. reflexivity. Qed.

Lemma preserves_get {A} (g : state -> A) : preserves f (get g).
Proof. intros s. reflexivity. Qed.

Lemma preserves_index {A} (a : state -> list A) i : preserves f (index a i).
Proof. intros s. unfold index. destruct (a s !! i); reflexivity. Qed.

Lemma preserves_bind {A B} (m : M A) (g : A -> M B) :
  preserves f m -> (forall a, preserves f (g a)) -> preserves f (bind m g).
Proof.
  intros Hm Hg s. unfold bind. specialize (Hm s).
  destruct (m s) as [[a|msg|] s']; cbn in *; [rewrite Hg|..]; exact Hm.
Qed.

Lemma preserves_if {A} (b : bool) (m1 m2 : M A) :
  preserves f m1 -> preserves f m2 -> preserves f (if b then m1 else m2).
Proof. destruct b; trivial. Qed.

Lemma preserves_for_each {A} l (body : nat -> A -> M A) a :
  (forall i x, preserves f (body i x)) -> preserves f (for_each l body a).
Proof.
  intros Hb. revert a. induction l as [|i l IH]; intros a; cbn.
  - apply preserves_ret.
  - apply preserves_bind; [apply Hb | exact IH].
Qed.

Lemma preserves_printf line : blind_to_io f -> preserves f (mexPrintf line).
Proof. intros [_ Hc] s. apply Hc. Qed.

Lemma preserves_syscall k c : blind_to_io f -> preserves f (syscall k c).
Proof. intros [Ht _] s. apply Ht. Qed.

Lemma preserves_set_pport i v :
  (forall s, (i < length (pports s))%nat ->
             f (with_pports (<[i := v]> (pports s)) s) = f s) ->
  preserves f (set_pport i v).
Proof.
  intros H s. unfold set_pport. destruct (decide _); cbn; auto.
Qed.

Lemma preserves_PrintHelp : blind_to_io f -> preserves f PrintHelp.
Proof.
  intros H. unfold PrintHelp.
  repeat (apply preserves_bind; [|intros _]); by apply preserves_printf.
Qed.

Lemma preserves_openPort k a : blind_to_io f -> preserves f (openPort k a).
Proof.
  intros H. unfold openPort. destruct a as [path|]; [|apply preserves_throw].
  apply preserves_bind; [by apply preserves_syscall | intros o].
  apply preserves_if; [apply preserves_throw|].
  apply preserves_bind; [by apply preserves_syscall | intros c].
  apply preserves_if; (apply preserves_bind; [by apply preserves_printf | intros _]).
  - apply preserves_throw.
  - apply preserves_ret.
Qed.

Lemma preserves_unloadPort k p : blind_to_io f -> preserves f (unloadPort k p).
Proof.
  intros H. unfold unloadPort. apply preserves_if; [|apply preserves_ret].
  apply preserves_bind; [by apply preserves_syscall | intros r].
  apply preserves_if.
  { apply preserves_bind; [by apply preserves_printf | intros _].
    apply preserves_throw. }
  apply preserves_bind; [by apply preserves_syscall | intros c].
  apply preserves_if; (apply preserves_bind; [by apply preserves_printf | intros _]).
  - apply preserves_throw.
  - apply preserves_ret.
Qed.

Lemma preserves_readPort k p : blind_to_io f -> preserves f (readPort k p).
Proof.
  intros H. unfold readPort. apply preserves_if; [|apply preserves_throw].
  apply preserves_bind; [by apply preserves_syscall | intros r].
  apply preserves_if.
  - apply preserves_bind; [by apply preserves_printf | intros _].
    apply preserves_throw.
  - apply preserves_ret.
Qed.

Lemma preserves_writePort k b p : blind_to_io f -> preserves f (writePort k b p).
Proof.
  intros H. unfold writePort. apply preserves_if; [|apply preserves_throw].
  apply preserves_bind; [by apply preserves_syscall | intros r].
  apply preserves_if.
  - apply preserves_bind; [by apply preserves_printf | intros _].
    apply preserves_throw.
  - apply preserves_ret.
Qed.

End Frame.

Lemma blind_statics : blind_to_io statics.
Proof. split; reflexivity. Qed.

Lemma blind_modes : blind_to_io modes.
Proof. split; reflexivity. Qed.

Lemma blind_addresses : blind_to_io addresses.
Proof. split; reflexivity. Qed.

Lemma blind_slot j : blind_to_io (fun s => pports s !! j).
Proof. split; reflexivity. Qed.

Create HintDb frame.
#[local] Hint Resolve blind_statics blind_modes blind_addresses blind_slot : frame.

Lemma slot_blind_modes i : blind_to_slot i modes.
Proof. intros v s _. reflexivity. Qed.

Lemma slot_blind_addresses i : blind_to_slot i addresses.
Proof. intros v s _. reflexivity. Qed.

Lemma slot_blind_other i j : i <> j -> blind_to_slot i (fun s => pports s !! j).
Proof. intros Hij v s _. cbn. by apply list_lookup_insert_ne. Qed.

#[local] Hint Resolve slot_blind_modes slot_blind_addresses slot_blind_other : frame.

Section SlotFrame.

Context {X : Type} (f : state -> X) (k : kernel).

Lemma preserves_unload_slot i :
  blind_to_io f -> blind_to_slot i f -> preserves f (unload_slot k i).
Proof.
  intros Hio Hi. unfold unload_slot.
  apply preserves_bind; [apply preserves_index | intros p].
  apply preserves_bind; [by apply preserves_unloadPort | intros p'].
  apply preserves_set_pport. intros s. apply Hi.
Qed.

Lemma preserves_reopen_slot i :
  blind_to_io f -> blind_to_slot i f -> preserves f (reopen_slot k i).
Proof.
  intros Hio Hi. unfold reopen_slot.
  apply preserves_bind; [by apply preserves_unload_slot | intros _].
  apply preserves_bind; [apply preserves_index | intros a].
  apply preserves_bind; [by apply preserves_openPort | intros p].
  apply preserves_set_pport. intros s. apply Hi.
Qed.

Lemma preserves_unloadAll :
  blind_to_io f -> (forall i, blind_to_slot i f) -> preserves f (unloadAll k).
Proof.
  intros Hio Hi. unfold unloadAll. apply preserves_for_each.
  intros i _. by apply preserves_unload_slot.
Qed.

Lemma preserves_case_read prhs :
  blind_to_io f -> preserves f (case_read k prhs).
Proof.
  intros Hio. unfold case_read.
  destruct (decide _); [apply preserves_throw|].
  apply preserves_bind; [apply preserves_get | intros multi].
  apply preserves_if.
  - apply preserves_bind; [apply preserves_index | intros p].
    apply preserves_bind; [by apply preserves_readPort | intros b].
    apply preserves_ret.
  - apply preserves_for_each. intros i plhs.
    apply preserves_bind; [apply preserves_index | intros p].
    apply preserves_bind; [by apply preserves_readPort | intros b].
    apply preserves_ret.
Qed.

Lemma preserves_case_write prhs :
  blind_to_io f -> preserves f (case_write k prhs).
Proof.
  intros Hio. unfold case_write.
  destruct (decide _); [apply preserves_throw|].
  destruct (default None _) as [d|]; [|apply preserves_undefined].
  destruct (to_uchar d) as [b|]; [|apply preserves_undefined].
  apply preserves_bind; [apply preserves_get | intros idx].
  apply preserves_if; [apply preserves_undefined|].
  apply preserves_bind; [apply preserves_index | intros p].
  apply preserves_bind; [by apply preserves_writePort | intros _].
  apply preserves_ret.
Qed.

(** The loop of [case 'o'] with no address. *)
Lemma preserves_open_all :
  blind_to_io f -> (forall i, blind_to_slot i f) ->
  preserves f (for_each (seq 0 3) (fun i _ => reopen_slot k i) tt).
Proof.
  intros Hio Hi. apply preserves_for_each.
  intros i _. by apply preserves_reopen_slot.
Qed.

End SlotFrame.

(** ** Traces *)

Lemma statics_inv s s' :
  statics s' = statics s ->
  pports s' = pports s /\ addresses s' = addresses s /\ modes s' = modes s.
Proof. unfold statics, modes. intros [= -> -> -> ->]. done. Qed.

Lemma advances_refl s : advances s s [].
Proof. split; [done | by rewrite app_nil_r]. Qed.

Lemma aborted_last tr evs e : ret e.2 < 0 -> aborted tr (tr ++ evs ++ [e]).
Proof. intros H. by exists evs, e. Qed.

Lemma aborted_later tr evs tr' : aborted (tr ++ evs) tr' -> aborted tr tr'.
Proof.
  intros (evs' & e & -> & He). exists (evs ++ evs'), e.
  split; [by rewrite <- !app_assoc | done].
Qed.

Lemma since_app s s' evs : trace s' = trace s ++ evs -> since s s' = evs.
Proof. intros E. unfold since. rewrite E. apply drop_app_length. Qed.

Lemma since_same s s' : trace s' = trace s -> since s s' = [].
Proof. intros E. apply since_app. by rewrite app_nil_r. Qed.

Lemma aborted_not_succeeded s s' :
  aborted (trace s) (trace s') -> ~ Forall succeeded (since s s').
Proof.
  intros (evs & e & E & He) Hall. rewrite (since_app _ _ _ E) in Hall.
  apply Forall_app in Hall as [_ Hall].
  inversion Hall as [|? ? Hs _]; subst. unfold succeeded in Hs. lia.
Qed.

(** ** The trace only grows *)

Section Growth.

Lemma grows_same {A} (m : M A) :
  (forall s, trace (m s).2 = trace s) -> grows m.
Proof. intros H s. by rewrite H. Qed.

Lemma grows_bind {A B} (m : M A) (g : A -> M B) :
  grows m -> (forall a, grows (g a)) -> grows (bind m g).
Proof.
  intros Hm Hg s. unfold bind. specialize (Hm s).
  destruct (m s) as [[a|msg|] s']; cbn in *; [|done..].
  etrans; [exact Hm | apply Hg].
Qed.

Lemma grows_if {A} (b : bool) (m1 m2 : M A) :
  grows m1 -> grows m2 -> grows (if b then m1 else m2).
Proof. destruct b; trivial. Qed.

Lemma grows_for_each {A} l (body : nat -> A -> M A) a :
  (forall i x, grows (body i x)) -> grows (for_each l body a).
Proof.
  intros Hb. revert a. induction l as [|i l IH]; intros a; cbn.
  - by apply grows_same.
  - apply grows_bind; [apply Hb | exact IH].
Qed.

Lemma grows_syscall k c : grows (syscall k c).
Proof. intros s. cbn. by apply prefix_app_r. Qed.

Lemma grows_index {A} (a : state -> list A) i : grows (index a i).
Proof. apply grows_same. intros s. unfold index. by destruct (a s !! i). Qed.

Lemma grows_set_pport i v : grows (set_pport i v).
Proof. apply grows_same. intros s. unfold set_pport. by destruct (decide _). Qed.

Lemma grows_openPort k a : grows (openPort k a).
Proof.
  unfold openPort. destruct a as [path|]; [|by apply grows_same].
  apply grows_bind; [apply grows_syscall | intros o].
  apply grows_if; [by apply grows_same|].
  apply grows_bind; [apply grows_syscall | intros c].
  apply grows_if; by apply grows_same.
Qed.

Lemma grows_unloadPort k p : grows (unloadPort k p).
Proof.
  unfold unloadPort. apply grows_if; [|by apply grows_same].
  apply grows_bind; [apply grows_syscall | intros r].
  apply grows_if; [by apply grows_same|].
  apply grows_bind; [apply grows_syscall | intros c].
  apply grows_if; by apply grows_same.
Qed.

Lemma grows_readPort k p : grows (readPort k p).
Proof.
  unfold readPort. apply grows_if; [|by apply grows_same].
  apply grows_bind; [apply grows_syscall | intros r].
  apply grows_if; by apply grows_same.
Qed.

Lemma grows_writePort k b p : grows (writePort k b p).
Proof.
  unfold writePort. apply grows_if; [|by apply grows_same].
  apply grows_bind; [apply grows_syscall | intros r].
  apply grows_if; by apply grows_same.
Qed.

Lemma grows_unload_slot k i : grows (unload_slot k i).
Proof.
  unfold unload_slot.
  apply grows_bind; [apply grows_index | intros p].
  apply grows_bind; [apply grows_unloadPort | intros p'].
  apply grows_set_pport.
Qed.

Lemma grows_reopen_slot k i : grows (reopen_slot k i).
Proof.
  unfold reopen_slot.
  apply grows_bind; [apply grows_unload_slot | intros _].
  apply grows_bind; [apply grows_index | intros a].
  apply grows_bind; [apply grows_openPort | intros p].
  apply grows_set_pport.
Qed.

Lemma grows_mexFunction k prhs : grows (mexFunction k prhs).
Proof.
  destruct prhs as [|[action|d] args]; [by apply grows_same| |by apply grows_same].
  unfold mexFunction, mxArrayToString.
  apply grows_bind; [|intros plhs; by apply grows_same].
  repeat apply grows_if.
  - unfold case_open. destruct (decide _); [|destruct (decide _)].
    + apply grows_bind; [|intros _; by apply grows_same].
      apply grows_for_each. intros i _. apply grows_reopen_slot.
    + apply grows_bind; [by apply grows_same | intros _].
      apply grows_bind; [by apply grows_same | intros _].
      apply grows_bind; [apply grows_unload_slot | intros _].
      apply grows_bind; [apply grows_openPort | intros p].
      apply grows_bind; [apply grows_set_pport | intros _].
      by apply grows_same.
    + by apply grows_same.
  - unfold case_write. destruct (decide _); [by apply grows_same|].
    destruct (default None _) as [d|]; [|by apply grows_same].
    destruct (to_uchar d) as [b|]; [|by apply grows_same].
    apply grows_bind; [by apply grows_same | intros idx].
    apply grows_if; [by apply grows_same|].
    apply grows_bind; [apply grows_index | intros p].
    apply grows_bind; [apply grows_writePort | intros _].
    by apply grows_same.
  - unfold case_read. destruct (decide _); [by apply grows_same|].
    apply grows_bind; [by apply grows_same | intros multi].
    apply grows_if.
    + apply grows_bind; [apply grows_index | intros p].
      apply grows_bind; [apply grows_readPort | intros b].
      by apply grows_same.
    + apply grows_for_each. intros i plhs.
      apply grows_bind; [apply grows_index | intros p].
      apply grows_bind; [apply grows_readPort | intros b].
      by apply grows_same.
  - unfold case_close. destruct (decide _); [by apply grows_same|].
    apply grows_bind.
    { apply grows_for_each. intros i _. apply grows_unload_slot. }
    intros _. apply grows_bind; [by apply grows_same | intros _].
    apply grows_bind; [by apply grows_same | intros _].
    by apply grows_same.
  - by apply grows_same.
Qed.

(** [since] is what a call added to the trace. *)
Lemma since_mexFunction k prhs s :
  trace (mexFunction k prhs s).2 = trace s ++ since s (mexFunction k prhs s).2.
Proof.
  destruct (grows_mexFunction k prhs s) as [evs E].
  by rewrite (since_app _ _ _ E).
Qed.

End Growth.

(** ** What each helper can do *)

Section Helpers.

Variable k : kernel.

Lemma unloadPort_closed p s : is_open p = false -> unloadPort k p s = (Ret p, s).
Proof. unfold unloadPort, is_open. by intros ->. Qed.

Lemma unloadPort_cases p s :
  exists o s' evs, unloadPort k p s = (o, s') /\ advances s s' evs /\
    ((o = Ret (unloaded p) /\ calls evs = closing p /\ Forall succeeded evs) \/
     (exists m, o = Throw m /\ is_open p = true /\ aborted (trace s) (trace s'))).
Proof.
  unfold unloadPort, unloaded, closing, is_open.
  destruct (0 <? p) eqn:Hp.
  - unfold bind, syscall; cbn.
    destruct (Z.ltb_spec (ret (k (trace s) (sys_ioctl p PPRELEASE))) 0) as [H1|H1]; cbn.
    + eexists _, _, [_]. split; [reflexivity|]. split; [done|].
      right. eexists. split; [done|]. split; [done|]. by apply (aborted_last _ []).
    + destruct (Z.ltb_spec
        (ret (k (trace s ++ [(sys_ioctl p PPRELEASE, k (trace s) (sys_ioctl p PPRELEASE))])
                (sys_close p))) 0) as [H2|H2]; cbn.
      * eexists _, _, [_; _]. split; [reflexivity|].
        split; [split; [done | cbn; by rewrite <- app_assoc]|].
        right. eexists. split; [done|]. split; [done|]. cbn.
        rewrite <- app_assoc. by apply (aborted_last _ [_]).
      * eexists _, _, [_; _]. split; [reflexivity|].
        split; [split; [done | cbn; by rewrite <- app_assoc]|].
        left. split; [done|]. split; [done|]. by repeat constructor.
  - eexists _, _, []. split; [reflexivity|]. split; [apply advances_refl|].
    left. split; [done|]. split; [done|]. constructor.
Qed.

Lemma openPort_cases a s :
  exists o s' evs, openPort k (Some a) s = (o, s') /\ advances s s' evs /\
    ((exists r c, o = Ret (ret r) /\
        evs = [(sys_open a, r); (sys_ioctl (ret r) PPCLAIM, c)] /\
        Forall succeeded evs) \/
     (exists m, o = Throw m /\ aborted (trace s) (trace s'))).
Proof.
  unfold openPort, bind, syscall; cbn.
  destruct (Z.ltb_spec (ret (k (trace s) (sys_open a))) 0) as [H1|H1]; cbn.
  - eexists _, _, [_]. split; [reflexivity|]. split; [done|].
    right. eexists. split; [done|]. by apply (aborted_last _ []).
  - destruct (Z.ltb_spec
      (ret (k (trace s ++ [(sys_open a, k (trace s) (sys_open a))])
              (sys_ioctl (ret (k (trace s) (sys_open a))) PPCLAIM))) 0) as [H2|H2]; cbn.
    + eexists _, _, [_; _]. split; [reflexivity|].
      split; [split; [done | cbn; by rewrite <- app_assoc]|].
      right. eexists. split; [done|]. cbn.
      rewrite <- app_assoc. by apply (aborted_last _ [_]).
    + eexists _, _, [_; _]. split; [reflexivity|].
      split; [split; [done | cbn; by rewrite <- app_assoc]|].
      left. eexists _, _. split; [done|]. split; [done|]. by repeat constructor.
Qed.

Lemma readPort_closed p s :
  is_open p = false -> readPort k p s = (Throw msg_not_opened, s).
Proof. unfold readPort, is_open. by intros ->. Qed.

Lemma writePort_closed b p s :
  is_open p = false -> writePort k b p s = (Throw msg_not_opened, s).
Proof. unfold writePort, is_open. by intros ->. Qed.

Lemma readPort_cases p s :
  is_open p = true ->
  exists o s' r, readPort k p s = (o, s') /\
    advances s s' [(sys_ioctl p PPRSTATUS, r)] /\
    ((o = Ret (stored r mod 256) /\ 0 <= ret r) \/
     (o = Throw msg_rstatus /\ ret r < 0)).
Proof.
  unfold readPort, is_open. intros ->. unfold bind, syscall; cbn.
  destruct (Z.ltb_spec (ret (k (trace s) (sys_ioctl p PPRSTATUS))) 0) as [H1|H1]; cbn.
  - eexists _, _, _. split; [reflexivity|]. split; [done|]. by right.
  - eexists _, _, _. split; [reflexivity|]. split; [done|]. by left.
Qed.

Lemma writePort_cases b p s :
  is_open p = true ->
  exists o s' r, writePort k b p s = (o, s') /\
    advances s s' [(sys_ioctl p (PPWDATA b), r)] /\
    ((o = Ret tt /\ 0 <= ret r) \/ (o = Throw msg_wdata /\ ret r < 0)).
Proof.
  unfold writePort, is_open. intros ->. unfold bind, syscall; cbn.
  destruct (Z.ltb_spec (ret (k (trace s) (sys_ioctl p (PPWDATA b)))) 0) as [H1|H1]; cbn.
  - eexists _, _, _. split; [reflexivity|]. split; [done|]. by right.
  - eexists _, _, _. split; [reflexivity|]. split; [done|]. by left.
Qed.

(** [pports[i] = unloadPort(pports[i])] *)
Lemma unload_slot_cases i p s :
  pports s !! i = Some p ->
  exists o s' evs, unload_slot k i s = (o, s') /\
    trace s' = trace s ++ evs /\
    addresses s' = addresses s /\ modes s' = modes s /\
    ((o = Ret tt /\ pports s' = <[i := unloaded p]> (pports s) /\
      calls evs = closing p /\ Forall succeeded evs) \/
     (exists m, o = Throw m /\ pports s' = pports s /\ is_open p = true /\
                aborted (trace s) (trace s'))).
Proof.
  intros Hi. unfold unload_slot, bind, index. rewrite Hi.
  destruct (unloadPort_cases p s)
    as (o & s' & evs & E & [Hst Htr] & [(-> & Hc & Hok)|(m & -> & Hp & Hab)]);
    rewrite E; apply statics_inv in Hst as (Hpp & Had & Hmo).
  - unfold set_pport. rewrite Hpp.
    destruct (decide _) as [_|Hn]; [|by apply lookup_lt_Some in Hi].
    eexists _, _, evs. split; [reflexivity|]. cbn.
    split; [done|]. split; [done|]. split; [done|]. by left.
  - eexists _, _, evs. split; [reflexivity|].
    split; [done|]. split; [done|]. split; [done|]. right. by exists m.
Qed.

(** A closed slot is left exactly as it is. *)
Lemma unload_slot_closed i p s :
  pports s !! i = Some p -> is_open p = false ->
  unload_slot k i s = (Ret tt, s).
Proof.
  intros Hi Hp. unfold unload_slot, bind, index. rewrite Hi.
  rewrite (unloadPort_closed _ _ Hp). unfold set_pport.
  destruct (decide _) as [_|Hn]; [|by apply lookup_lt_Some in Hi].
  rewrite (list_insert_id _ _ _ Hi). by destruct s.
Qed.

End Helpers.

(** ** The entry point *)

Section EntryPoint.

Variable k : kernel.

(** The end of [mexFunction]: the exit hook is registered when the case
    taken returns. *)
Lemma mexFunction_case action args s :
  let prhs := mxChar action :: args in
  let c := first_char action in
  mexFunction k prhs s =
    registered
      ((if Ascii.eqb c "o" then case_open k prhs
        else if Ascii.eqb c "w" then case_write k prhs
        else if Ascii.eqb c "r" then case_read k prhs
        else if Ascii.eqb c "c" then case_close k prhs
        else mexErrMsgTxt msg_action) s).
Proof.
  intros prhs c.
  set (body := if Ascii.eqb c "o" then _ else _).
  change (mexFunction k prhs) with (plhs <- body ;; mexAtExit ;;; ret_ plhs)%prog.
  unfold bind at 1. destruct (body s) as [[plhs|msg|] s']; reflexivity.
Qed.

Lemma mexFunction_o rest args s :
  mexFunction k (mxChar (String "o" rest) :: args) s =
    registered (case_open k (mxChar (String "o" rest) :: args) s).
Proof. apply mexFunction_case. Qed.

Lemma mexFunction_w rest args s :
  mexFunction k (mxChar (String "w" rest) :: args) s =
    registered (case_write k (mxChar (String "w" rest) :: args) s).
Proof. apply mexFunction_case. Qed.

Lemma mexFunction_r rest args s :
  mexFunction k (mxChar (String "r" rest) :: args) s =
    registered (case_read k (mxChar (String "r" rest) :: args) s).
Proof. apply mexFunction_case. Qed.

Lemma mexFunction_c rest args s :
  mexFunction k (mxChar (String "c" rest) :: args) s =
    registered (case_close k (mxChar (String "c" rest) :: args) s).
Proof. apply mexFunction_case. Qed.

Lemma case_open_address p0 a s :
  case_open k [p0; mxChar a] s =
    (unload_slot k 0 ;;;
     p <- openPort k (Some a) ;;
     set_pport 0 p ;;;
     ret_ [])%prog
      (with_writing_port_idx 0 (with_use_multiple_ports 0 s)).
Proof. reflexivity. Qed.

End EntryPoint.

(** C3. [ppMEG('open', address)]: whatever the outcome, the mode flags are
    those of single-port mode, the addresses and every slot but slot 0 are
    as before; and when every system call of the run succeeded, the call
    returns, slot 0 was closed if it was open, then [address] was opened and
    claimed, and slot 0 holds the descriptor [open] returned. *)
Theorem open_address_slot0_only (k : kernel) (rest a : string) (s : state) :
  let r := mexFunction k [mxChar (String "o" rest); mxChar a] s in
  use_multiple_ports r.2 = 0 /\ writing_port_idx r.2 = 0 /\
  multi_port_mode r.2 = false /\
  addresses r.2 = addresses s /\
  (forall j, j <> 0%nat -> pports r.2 !! j = pports s !! j) /\
  (forall p0, pports s !! 0%nat = Some p0 ->
     Forall succeeded (since s r.2) ->
     exists evs o c,
       r.1 = Ret [] /\
       since s r.2 = evs ++ [(sys_open a, o); (sys_ioctl (ret o) PPCLAIM, c)] /\
       calls evs = closing p0 /\
       pports r.2 !! 0%nat = Some (ret o)).
Proof.
  intros r.
  set (s0 := with_writing_port_idx 0 (with_use_multiple_ports 0 s)).
  set (tail := (unload_slot k 0 ;;; p <- openPort k (Some a) ;;
                set_pport 0 p ;;; ret_ (@nil Z))%prog).
  assert (E : r = registered (tail s0)).
  { unfold r. rewrite mexFunction_o. by rewrite case_open_address. }
  clearbody r.
  assert (Hframe : forall X (f : state -> X),
             blind_to_io f -> blind_to_slot 0 f ->
             (forall v s, f (with_at_exit v s) = f s) -> f r.2 = f s0).
  { intros X f Hio Hsl Hae.
    assert (Ht : preserves f tail).
    { apply preserves_bind; [by apply preserves_unload_slot | intros _].
      apply preserves_bind; [by apply preserves_openPort | intros p].
      apply preserves_bind;
        [apply preserves_set_pport; intros s'; apply Hsl | intros _].
      apply preserves_ret. }
    specialize (Ht s0). rewrite E.
    destruct (tail s0) as [[plhs|msg|] s']; cbn in *; by rewrite ?Hae. }
  assert (Hm : modes r.2 = (0, 0)).
  { by rewrite (Hframe _ modes) by (auto with frame). }
  assert (Hu : use_multiple_ports r.2 = 0) by (by injection Hm).
  split; [done|]. split; [by injection Hm|].
  split; [unfold multi_port_mode; by rewrite Hu|].
  split; [by rewrite (Hframe _ addresses) by (auto with frame)|].
  split.
  { intros j Hj.
    by rewrite (Hframe _ (fun s => pports s !! j)) by (auto with frame). }
  intros p0 H0 Hall.
  destruct (unload_slot_cases k 0 p0 s0 H0)
    as (o1 & s1 & evs & E1 & Htr1 & _ & _ & [(-> & Hpp1 & Hc1 & _)|(m & -> & _ & _ & Hab)]).
  - destruct (openPort_cases k a s1)
      as (o2 & s2 & evs2 & E2 & [Hst2 Htr2] & [(o & c & -> & -> & _)|(m & -> & Hab)]);
      apply statics_inv in Hst2 as (Hpp2 & _ & _).
    + assert (Hlen : (0 < length (pports s2))%nat).
      { rewrite Hpp2, Hpp1, length_insert. by apply lookup_lt_Some in H0. }
      assert (Et : tail s0 =
                   (Ret [], with_pports (<[0%nat := ret o]> (pports s2)) s2)).
      { unfold tail, bind. rewrite E1, E2. unfold set_pport.
        by destruct (decide _). }
      rewrite Et in E. exists evs, o, c. rewrite E. cbn.
      split; [done|]. split.
      * apply since_app. cbn. rewrite Htr2, Htr1. by rewrite <- app_assoc.
      * split; [done|]. by apply list_lookup_insert_eq.
    + exfalso. assert (Et : tail s0 = (Throw m, s2)).
      { unfold tail, bind. by rewrite E1, E2. }
      rewrite Et in E. rewrite E in Hall. cbn in Hall.
      apply (aborted_not_succeeded s s2); [|done].
      rewrite Htr1 in Hab. by apply aborted_later in Hab.
  - exfalso. assert (Et : tail s0 = (Throw m, s1)).
    { unfold tail, bind. by rewrite E1. }
    rewrite Et in E. rewrite E in Hall. cbn in Hall.
    by apply (aborted_not_succeeded s s1).
Qed.

Section CloseAll.

Variable k : kernel.

Lemma unloadAll_unfold s :
  unloadAll k s =
    (unload_slot k 0 ;;; unload_slot k 1 ;;; u <- unload_slot k 2 ;; ret_ u)%prog s.
Proof. reflexivity. Qed.

Lemma unloadAll_cases p0 p1 p2 s :
  pports s = [p0; p1; p2] ->
  exists o s' evs, unloadAll k s = (o, s') /\
    trace s' = trace s ++ evs /\
    addresses s' = addresses s /\ modes s' = modes s /\
    ((o = Ret tt /\ pports s' = [unloaded p0; unloaded p1; unloaded p2] /\
      calls evs = closing p0 ++ closing p1 ++ closing p2 /\
      Forall succeeded evs) \/
     (exists m, o = Throw m /\ aborted (trace s) (trace s'))).
Proof.
  intros Hpp. rewrite unloadAll_unfold. unfold bind.
  destruct (unload_slot_cases k 0 p0 s)
    as (o0 & s0 & ev0 & E0 & Ht0 & Ha0 & Hm0 & [(-> & Hp0 & Hc0 & Hs0)|(m & -> & _ & _ & Hab)]);
    [by rewrite Hpp| |]; rewrite E0.
  2:{ eexists _, _, ev0. repeat (split; [done|]). right. by exists m. }
  rewrite Hpp in Hp0. cbn in Hp0.
  destruct (unload_slot_cases k 1 p1 s0)
    as (o1 & s1 & ev1 & E1 & Ht1 & Ha1 & Hm1 & [(-> & Hp1 & Hc1 & Hs1)|(m & -> & _ & _ & Hab)]);
    [by rewrite Hp0| |]; rewrite E1.
  2:{ eexists _, _, (ev0 ++ ev1). split; [done|].
      split; [by rewrite Ht1, Ht0, <- app_assoc|].
      split; [congruence|]. split; [congruence|]. right. exists m.
      split; [done|]. rewrite Ht0 in Hab. by apply aborted_later in Hab. }
  rewrite Hp0 in Hp1. cbn in Hp1.
  destruct (unload_slot_cases k 2 p2 s1)
    as (o2 & s2 & ev2 & E2 & Ht2 & Ha2 & Hm2 & [(-> & Hp2 & Hc2 & Hs2)|(m & -> & _ & _ & Hab)]);
    [by rewrite Hp1| |]; rewrite E2.
  2:{ eexists _, _, (ev0 ++ ev1 ++ ev2). split; [done|].
      split; [by rewrite Ht2, Ht1, Ht0, <- !app_assoc|].
      split; [congruence|]. split; [congruence|]. right. exists m.
      split; [done|]. rewrite Ht1, Ht0 in Hab.
      by do 2 apply aborted_later in Hab. }
  rewrite Hp1 in Hp2. cbn in Hp2.
  eexists _, _, (ev0 ++ ev1 ++ ev2). split; [done|].
  split; [by rewrite Ht2, Ht1, Ht0, <- !app_assoc|].
  split; [congruence|]. split; [congruence|]. left.
  split; [done|]. split; [done|]. split.
  - unfold calls in *. rewrite !List.map_app.
    apply (f_equal2 app); [exact Hc0 | apply (f_equal2 app); [exact Hc1 | exact Hc2]].
  - by repeat (apply Forall_app; split).
Qed.

Lemma unloadAll_closed p0 p1 p2 s :
  pports s = [p0; p1; p2] ->
  is_open p0 = false -> is_open p1 = false -> is_open p2 = false ->
  unloadAll k s = (Ret tt, s).
Proof.
  intros Hpp H0 H1 H2. rewrite unloadAll_unfold. unfold bind.
  rewrite (unload_slot_closed k 0 p0), (unload_slot_closed k 1 p1),
    (unload_slot_closed k 2 p2); by rewrite ?Hpp.
Qed.

Lemma case_close_unfold a0 s :
  case_close k [a0] s =
    (unloadAll k ;;; put (with_use_multiple_ports 1) ;;;
     put (with_writing_port_idx 1) ;;; ret_ [])%prog s.
Proof. reflexivity. Qed.

End CloseAll.

Lemma unloaded_closed p : is_open (unloaded p) = false.
Proof. unfold unloaded. destruct (is_open p) eqn:E; [reflexivity | exact E]. Qed.

(** C4. [ppMEG('close')]: when every system call of the run succeeded, the
    call returns, it released and closed the open slots in the order 0, 1,
    2 and nothing else, no slot is open any more, and the mode flags are
    back to their defaults. *)
Theorem close_releases_all_and_resets
    (k : kernel) (rest : string) (s : state) (p0 p1 p2 : Z) :
  pports s = [p0; p1; p2] ->
  let r := mexFunction k [mxChar (String "c" rest)] s in
  Forall succeeded (since s r.2) ->
  r.1 = Ret [] /\
  calls (since s r.2) = closing p0 ++ closing p1 ++ closing p2 /\
  pports r.2 = [unloaded p0; unloaded p1; unloaded p2] /\
  Forall (fun p => is_open p = false) (pports r.2) /\
  use_multiple_ports r.2 = 1 /\ writing_port_idx r.2 = 1 /\
  multi_port_mode r.2 = true /\
  addresses r.2 = addresses s.
Proof.
  intros Hpp r Hall.
  assert (E : r = registered (case_close k [mxChar (String "c" rest)] s))
    by apply mexFunction_c.
  clearbody r. rewrite case_close_unfold in E. unfold bind at 1 in E.
  destruct (unloadAll_cases k p0 p1 p2 s Hpp)
    as (o & s' & evs & E' & Ht & Ha & Hm & [(-> & Hp & Hc & Hs)|(m & -> & Hab)]);
    rewrite E' in E; cbn in E.
  - rewrite E. unfold since. cbn. rewrite Ht, drop_app_length.
    split; [done|]. split; [done|]. split; [done|]. split.
    { rewrite Hp. repeat constructor; apply unloaded_closed. }
    done.
  - exfalso. rewrite E in Hall. cbn in Hall.
    by apply (aborted_not_succeeded s s').
Qed.

(** C8. [ppMEG('close')] when no slot is open: the call returns, issues no
    system call and prints nothing, leaves every handle as it is (the
    sentinel), and sets the mode flags to their defaults. *)
Theorem close_when_nothing_open
    (k : kernel) (rest : string) (s : state) (p0 p1 p2 : Z) :
  pports s = [p0; p1; p2] ->
  is_open p0 = false -> is_open p1 = false -> is_open p2 = false ->
  let r := mexFunction k [mxChar (String "c" rest)] s in
  r.1 = Ret [] /\
  pports r.2 = pports s /\
  trace r.2 = trace s /\ since s r.2 = [] /\
  console r.2 = console s /\
  use_multiple_ports r.2 = 1 /\ writing_port_idx r.2 = 1 /\
  r.2 = with_at_exit true
          (with_writing_port_idx 1 (with_use_multiple_ports 1 s)).
Proof.
  intros Hpp H0 H1 H2 r.
  assert (E : r = registered (case_close k [mxChar (String "c" rest)] s))
    by apply mexFunction_c.
  clearbody r. rewrite case_close_unfold in E. unfold bind at 1 in E.
  rewrite (unloadAll_closed k p0 p1 p2 s Hpp H0 H1 H2) in E. cbn in E.
  rewrite E. cbn. repeat (split; [done|]).
  split; [by apply since_same|]. done.
Qed.

Lemma advances_pports s s' evs i :
  advances s s' evs -> pports s' !! i = pports s !! i.
Proof. intros [H _]. apply statics_inv in H as (-> & _). done. Qed.

Section ReadWrite.

Variable k : kernel.

Lemma case_read_single a0 s :
  multi_port_mode s = false ->
  case_read k [a0] s =
    (p <- index pports 0 ;; message <- readPort k p ;;
     ret_ [mxCreateDoubleScalar message])%prog s.
Proof.
  unfold multi_port_mode. intros H. apply negb_false_iff in H.
  unfold case_read. cbn [length]. destruct (decide _); [done|].
  unfold bind at 1, get. by rewrite H.
Qed.

Lemma case_read_multi a0 s :
  multi_port_mode s = true ->
  case_read k [a0] s =
    for_each (seq 0 3)
      (fun i plhs =>
         p <- index pports i ;; message <- readPort k p ;;
         ret_ (plhs ++ [mxCreateDoubleScalar message]))%prog [] s.
Proof.
  unfold multi_port_mode. intros H. apply negb_true_iff in H.
  unfold case_read. cbn [length]. destruct (decide _); [done|].
  unfold bind at 1, get. by rewrite H.
Qed.

(** One turn of the loop of [case 'r']. *)
Lemma read_slot_cases i p plhs s :
  pports s !! i = Some p ->
  exists o s' evs,
    (q <- index pports i ;; message <- readPort k q ;;
     ret_ (plhs ++ [mxCreateDoubleScalar message]))%prog s = (o, s') /\
    advances s s' evs /\
    Forall (fun c => exists q, c = sys_ioctl q PPRSTATUS /\ is_open q = true)
           (calls evs) /\
    ((exists r, is_open p = true /\ evs = [(sys_ioctl p PPRSTATUS, r)] /\
                0 <= ret r /\ o = Ret (plhs ++ [stored r mod 256])) \/
     (is_open p = true /\ o = Throw msg_rstatus /\
      aborted (trace s) (trace s')) \/
     (is_open p = false /\ o = Throw msg_not_opened /\ evs = [])).
Proof.
  intros Hi. unfold bind at 1, index. rewrite Hi. unfold bind.
  destruct (is_open p) eqn:Hp.
  - destruct (readPort_cases k p s Hp)
      as (o & s' & r & E & Hadv & [[-> Hr]|[-> Hr]]); rewrite E.
    + exists (Ret (plhs ++ [stored r mod 256])), s', [(sys_ioctl p PPRSTATUS, r)].
      split; [done|]. split; [done|].
      split; [repeat constructor; by exists p|].
      left. by exists r.
    + exists (Throw msg_rstatus), s', [(sys_ioctl p PPRSTATUS, r)].
      split; [done|]. split; [done|].
      split; [repeat constructor; by exists p|].
      right; left. split; [done|]. split; [done|].
      destruct Hadv as [_ ->]. by apply (aborted_last _ []).
  - rewrite (readPort_closed k p s Hp).
    exists (Throw msg_not_opened), s, []. split; [done|].
    split; [apply advances_refl|]. split; [constructor|]. by right; right.
Qed.

Lemma read_all_cases a0 p0 p1 p2 s :
  pports s = [p0; p1; p2] -> multi_port_mode s = true ->
  is_open p0 = true -> is_open p1 = true -> is_open p2 = true ->
  exists o s' evs, case_read k [a0] s = (o, s') /\ advances s s' evs /\
    ((exists r0 r1 r2,
        evs = [(sys_ioctl p0 PPRSTATUS, r0); (sys_ioctl p1 PPRSTATUS, r1);
               (sys_ioctl p2 PPRSTATUS, r2)] /\
        o = Ret [stored r0 mod 256; stored r1 mod 256; stored r2 mod 256]) \/
     (o = Throw msg_rstatus /\ aborted (trace s) (trace s'))).
Proof.
  intros Hpp Hm H0 H1 H2.
  rewrite (case_read_multi _ s Hm). cbn [for_each seq].
  unfold bind at 1.
  destruct (read_slot_cases 0 p0 [] s)
    as (o0 & s0 & ev0 & E0 & A0 & _ & [(r0 & _ & -> & _ & ->)|[(_ & -> & Hab)|(? & _)]]);
    [by rewrite Hpp| | |congruence]; rewrite E0.
  2:{ exists (Throw msg_rstatus), s0, ev0. split; [done|]. split; [done|]. by right. }
  unfold bind at 1.
  destruct (read_slot_cases 1 p1 ([] ++ [stored r0 mod 256]) s0)
    as (o1 & s1 & ev1 & E1 & A1 & _ & [(r1 & _ & -> & _ & ->)|[(_ & -> & Hab)|(? & _)]]);
    [by rewrite (advances_pports _ _ _ _ A0), Hpp| | |congruence];
    rewrite E1; pose proof A0 as [S0 T0].
  2:{ destruct A1 as [S1 T1].
      exists (Throw msg_rstatus), s1, ([(sys_ioctl p0 PPRSTATUS, r0)] ++ ev1).
      split; [done|]. split; [split; [congruence | by rewrite T1, T0, <- app_assoc]|].
      right. split; [done|]. rewrite T0 in Hab. by apply aborted_later in Hab. }
  unfold bind at 1.
  destruct (read_slot_cases 2 p2 (([] ++ [stored r0 mod 256]) ++ [stored r1 mod 256]) s1)
    as (o2 & s2 & ev2 & E2 & A2 & _ & [(r2 & _ & -> & _ & ->)|[(_ & -> & Hab)|(? & _)]]);
    [by rewrite (advances_pports _ _ _ _ A1), (advances_pports _ _ _ _ A0), Hpp| | |congruence];
    rewrite E2; destruct A1 as [S1 T1], A2 as [S2 T2].
  2:{ exists (Throw msg_rstatus), s2,
        ([(sys_ioctl p0 PPRSTATUS, r0); (sys_ioctl p1 PPRSTATUS, r1)] ++ ev2).
      split; [done|].
      split; [split; [congruence | by rewrite T2, T1, T0, <- !app_assoc]|].
      right. split; [done|]. rewrite T1, T0 in Hab.
      by do 2 apply aborted_later in Hab. }
  eexists _, s2, _. split; [reflexivity|].
  split; [split; [congruence | by rewrite T2, T1, T0, <- !app_assoc]|].
  left. by exists r0, r1, r2.
Qed.

Lemma read_one_cases a0 p0 s :
  pports s !! 0%nat = Some p0 -> multi_port_mode s = false ->
  is_open p0 = true ->
  exists o s' r0, case_read k [a0] s = (o, s') /\
    advances s s' [(sys_ioctl p0 PPRSTATUS, r0)] /\
    ((o = Ret [stored r0 mod 256] /\ 0 <= ret r0) \/
     (o = Throw msg_rstatus /\ ret r0 < 0)).
Proof.
  intros Hp0 Hm H0. rewrite (case_read_single _ s Hm).
  unfold bind at 1, index. rewrite Hp0. unfold bind.
  destruct (readPort_cases k p0 s H0)
    as (o & s' & r0 & E & A & [[-> Hr]|[-> Hr]]); rewrite E.
  - eexists _, s', r0. split; [reflexivity|]. split; [done|]. by left.
  - eexists _, s', r0. split; [reflexivity|]. split; [done|]. by right.
Qed.

End ReadWrite.


(** The values [m] can return. *)
Lemma returns_bind {A B} (Q : B -> Prop) (m : M A) (g : A -> M B) s b s' :
  bind m g s = (Ret b, s') ->
  (forall a s1, m s = (Ret a, s1) -> g a s1 = (Ret b, s') -> Q b) -> Q b.
Proof.
  unfold bind. intros E H. destruct (m s) as [[a|msg|] s1]; try discriminate.
  by apply (H a s1).
Qed.

Lemma readPort_byte k p s v s' :
  readPort k p s = (Ret v, s') -> 0 <= v < 256.
Proof.
  unfold readPort. destruct (0 <? p); [|discriminate].
  unfold bind, syscall. destruct (_ <? 0); cbn; [discriminate|].
  intros [= <- _]. by apply Z.mod_pos_bound.
Qed.

Lemma read_slot_bytes k i plhs s out s' :
  Forall (fun v => 0 <= v < 256) plhs ->
  (p <- index pports i ;; message <- readPort k p ;;
   ret_ (plhs ++ [mxCreateDoubleScalar message]))%prog s = (Ret out, s') ->
  Forall (fun v => 0 <= v < 256) out.
Proof.
  intros Hpl E. apply (returns_bind _ _ _ _ _ _ E). intros p s1 _ E1.
  apply (returns_bind _ _ _ _ _ _ E1). intros v s2 Ev [= <- _].
  apply Forall_app. split; [done|]. repeat constructor; by eapply readPort_byte.
Qed.

Lemma case_read_bytes k prhs s out s' :
  case_read k prhs s = (Ret out, s') -> Forall (fun v => 0 <= v < 256) out.
Proof.
  unfold case_read. destruct (decide _); [discriminate|].
  intros E. apply (returns_bind _ _ _ _ _ _ E). intros multi s1 _.
  destruct (multi =? 0).
  - by apply (read_slot_bytes k 0 []).
  - cbn [for_each seq]. intros E0.
    apply (returns_bind _ _ _ _ _ _ E0). intros l0 t0 R0 E1.
    apply (returns_bind _ _ _ _ _ _ E1). intros l1 t1 R1 E2.
    apply (returns_bind _ _ _ _ _ _ E2). intros l2 t2 R2 [= <- _].
    apply read_slot_bytes in R0; [|constructor].
    apply read_slot_bytes in R1; [|done]. by apply read_slot_bytes in R2.
Qed.

(** C6. [ppMEG('read')] never changes the handles, the addresses or the
    mode flags.  When the slots it reads are open and every system call of
    the run succeeded, it reads the status pins of slots 0, 1, 2 in this
    order and returns three values in multi-port mode, and reads slot 0 and
    returns one value in single-port mode; each value is the byte the
    driver stored. *)
Theorem read_returns_one_value_per_port (k : kernel) (rest : string) (s : state) :
  let r := mexFunction k [mxChar (String "r" rest)] s in
  statics r.2 = statics s /\
  (forall p0 p1 p2,
     pports s = [p0; p1; p2] -> multi_port_mode s = true ->
     is_open p0 = true -> is_open p1 = true -> is_open p2 = true ->
     Forall succeeded (since s r.2) ->
     exists r0 r1 r2,
       since s r.2 = [(sys_ioctl p0 PPRSTATUS, r0);
                      (sys_ioctl p1 PPRSTATUS, r1);
                      (sys_ioctl p2 PPRSTATUS, r2)] /\
       r.1 = Ret [stored r0 mod 256; stored r1 mod 256; stored r2 mod 256]) /\
  (forall p0,
     pports s !! 0%nat = Some p0 -> multi_port_mode s = false ->
     is_open p0 = true ->
     Forall succeeded (since s r.2) ->
     exists r0,
       since s r.2 = [(sys_ioctl p0 PPRSTATUS, r0)] /\
       r.1 = Ret [stored r0 mod 256]) /\
  (forall plhs, r.1 = Ret plhs -> Forall (fun v => 0 <= v < 256) plhs).
Proof.
  intros r.
  assert (E : r = registered (case_read k [mxChar (String "r" rest)] s))
    by apply mexFunction_r.
  clearbody r. subst r.
  split.
  { pose proof (preserves_case_read statics k [mxChar (String "r" rest)]
                  blind_statics s) as H.
    destruct (case_read _ _ s) as [[plhs|msg|] s']; exact H. }
  split; [|split].
  - intros p0 p1 p2 Hpp Hm H0 H1 H2.
    destruct (read_all_cases k (mxChar (String "r" rest)) p0 p1 p2 s Hpp Hm H0 H1 H2)
      as (o & s' & evs & E & [_ T] & [(r0 & r1 & r2 & -> & ->)|[-> Hab]]);
      rewrite E; cbn; intros Hall.
    + exists r0, r1, r2. split; [by apply since_app | done].
    + exfalso. by apply (aborted_not_succeeded s s').
  - intros p0 Hp0 Hm H0.
    destruct (read_one_cases k (mxChar (String "r" rest)) p0 s Hp0 Hm H0)
      as (o & s' & r0 & E & [_ T] & [[-> Hr]|[-> Hr]]);
      rewrite E; cbn; intros Hall.
    + exists r0. split; [by apply since_app | done].
    + exfalso. apply (aborted_not_succeeded s s'); [|done].
      rewrite T. by apply (aborted_last _ []).
  - intros plhs. destruct (case_read _ _ s) as [[out|msg|] s'] eqn:E;
      cbn; [|discriminate..].
    intros [= <-]. by apply (case_read_bytes _ _ _ _ _ E).
Qed.

Section Modes.

Variable k : kernel.

Lemma registered_modes r : modes (registered r).2 = modes r.2.
Proof. by destruct r as [[plhs|msg|] s]. Qed.

Lemma case_open_modes prhs s :
  modes (case_open k prhs s).2 = modes s \/ modes (case_open k prhs s).2 = (0, 0).
Proof.
  unfold case_open. destruct (decide _) as [_|_]; [|destruct (decide _) as [_|_]].
  - left. revert s. apply preserves_bind; [|intros _; apply preserves_ret].
    apply preserves_open_all; auto with frame.
  - right.
    set (ua := default None (mxArrayToString <$> prhs !! 1%nat)).
    set (tail := (unload_slot k 0 ;;; p <- openPort k ua ;;
                  set_pport 0 p ;;; ret_ (@nil Z))%prog).
    change (modes (tail (with_writing_port_idx 0 (with_use_multiple_ports 0 s))).2
            = (0, 0)).
    assert (Ht : preserves modes tail).
    { apply preserves_bind; [apply preserves_unload_slot; auto with frame | intros _].
      apply preserves_bind; [apply preserves_openPort; auto with frame | intros p].
      apply preserves_bind;
        [apply preserves_set_pport; intros; reflexivity | intros _].
      apply preserves_ret. }
    by rewrite Ht.
  - by left.
Qed.

Lemma case_close_modes prhs s :
  modes (case_close k prhs s).2 = modes s \/ modes (case_close k prhs s).2 = (1, 1).
Proof.
  unfold case_close. destruct (decide _) as [_|_]; [by left|].
  unfold bind.
  pose proof (preserves_unloadAll modes k blind_modes slot_blind_modes s) as H.
  destruct (unloadAll k s) as [[[]|msg|] s']; cbn in *; [by right | by left..].
Qed.

(** What a call can do to the mode flags. *)
Lemma mexFunction_modes prhs s :
  modes (mexFunction k prhs s).2 = modes s \/
  modes (mexFunction k prhs s).2 = (0, 0) \/
  modes (mexFunction k prhs s).2 = (1, 1).
Proof.
  destruct prhs as [|[action|d] args].
  - left. revert s. apply preserves_bind; [|intros _; apply preserves_ret].
    apply preserves_PrintHelp, blind_modes.
  - rewrite mexFunction_case, registered_modes.
    destruct (Ascii.eqb _ "o").
    { destruct (case_open_modes (mxChar action :: args) s); auto. }
    destruct (Ascii.eqb _ "w").
    { left. apply preserves_case_write, blind_modes. }
    destruct (Ascii.eqb _ "r").
    { left. apply preserves_case_read, blind_modes. }
    destruct (Ascii.eqb _ "c").
    { destruct (case_close_modes (mxChar action :: args) s); auto. }
    by left.
  - by left.
Qed.

(** [ppMEG('open')] does not assign the mode flags. *)
Lemma open_all_keeps_modes rest s :
  modes (mexFunction k [mxChar (String "o" rest)] s).2 = modes s.
Proof.
  rewrite mexFunction_o, registered_modes. revert s.
  apply preserves_bind; [|intros _; apply preserves_ret].
  apply preserves_open_all; auto with frame.
Qed.

Lemma reachable_modes s :
  reachable k s -> modes s = (1, 1) \/ modes s = (0, 0).
Proof.
  induction 1 as [|s prhs _ IH]; [by left|].
  destruct (mexFunction_modes prhs s) as [->|[->| ->]]; auto.
Qed.

End Modes.

(** C9. In every state a session can reach, whatever the outcomes of its
    calls, the write target is slot 0 or slot 1, and it is slot 1 exactly
    in multi-port mode. *)
Theorem reachable_modes_agree (k : kernel) (s : state) :
  reachable k s -> modes_agree s.
Proof.
  intros H. apply reachable_modes in H. unfold modes_agree, multi_port_mode.
  unfold modes in H. destruct H as [[= -> ->]|[= -> ->]]; cbn.
  - split; [by right | done].
  - split; [by left | split; discriminate].
Qed.

(** C2 as the code has it.  The action is matched on its first character
    only and the match is case-sensitive: [o], [w], [r] and [c] select the
    case, whatever follows them; every other first character, the capital
    letters and the NUL of an empty string included, is the error of the
    [default] label, raised before anything is done. *)
Theorem dispatch_on_first_char_case_sensitive
    (k : kernel) (action : string) (args : list mxArray) (s : state) :
  let prhs := mxChar action :: args in
  let c := first_char action in
  (c = "o"%char -> mexFunction k prhs s = registered (case_open k prhs s)) /\
  (c = "w"%char -> mexFunction k prhs s = registered (case_write k prhs s)) /\
  (c = "r"%char -> mexFunction k prhs s = registered (case_read k prhs s)) /\
  (c = "c"%char -> mexFunction k prhs s = registered (case_close k prhs s)) /\
  (c <> "o"%char -> c <> "w"%char -> c <> "r"%char -> c <> "c"%char ->
   mexFunction k prhs s = (Throw msg_action, s)).
Proof.
  intros prhs c. unfold prhs. rewrite mexFunction_case. fold c. fold prhs.
  repeat split.
  - by intros ->.
  - by intros ->.
  - by intros ->.
  - by intros ->.
  - intros Ho Hw Hr Hc.
    apply Ascii.eqb_neq in Ho, Hw, Hr, Hc. by rewrite Ho, Hw, Hr, Hc.
Qed.

Lemma dispatch_on_first_char_case_sensitive_witness :
  mexFunction three_ports [mxChar "oops"] initial =
    registered (case_open three_ports [mxChar "oops"] initial) /\
  mexFunction three_ports [mxChar "x"] initial = (Throw msg_action, initial).
Proof.
  split.
  - by apply (dispatch_on_first_char_case_sensitive three_ports "oops" [] initial).
  - apply (dispatch_on_first_char_case_sensitive three_ports "x" [] initial);
      discriminate.
Defined.

(** C2 read without regard to case fails: [Open] starts with a capital O and is not
    taken for [open]. *)
Lemma uppercase_action_is_rejected :
  first_char "Open" = "O"%char /\
  mexFunction three_ports [mxChar "Open"] initial = (Throw msg_action, initial) /\
  mexFunction three_ports [mxChar "Open"] initial <>
    registered (case_open three_ports [mxChar "Open"] initial).
Proof.
  split; [reflexivity|]. split; [reflexivity|].
  vm_compute. discriminate.
Qed.

(** C1 at the input that shows the defect: after [ppMEG('open',
    '/dev/parport1')], a call [ppMEG('open')] in which every system call
    succeeds opens the three default ports and leaves the manager in
    single-port mode with slot 0 as the write target; a following
    [ppMEG('read')] returns one value. *)
Theorem open_all_after_open_address_stays_single_port :
  let s1 :=
    (mexFunction three_ports [mxChar "open"; mxChar "/dev/parport1"] initial).2 in
  let r := mexFunction three_ports [mxChar "open"] s1 in
  r.1 = Ret [] /\
  map (fun e => (e.1, ret e.2)) (since s1 r.2) =
    [(sys_ioctl 3 PPRELEASE, 0); (sys_close 3, 0);
     (sys_open "/dev/parport0", 3); (sys_ioctl 3 PPCLAIM, 0);
     (sys_open "/dev/parport1", 4); (sys_ioctl 4 PPCLAIM, 0);
     (sys_open "/dev/parport4", 5); (sys_ioctl 5 PPCLAIM, 0)] /\
  pports r.2 = [3; 4; 5] /\
  use_multiple_ports r.2 = 0 /\ multi_port_mode r.2 = false /\
  writing_port_idx r.2 = 0 /\
  (mexFunction three_ports [mxChar "read"] r.2).1 = Ret [0].
Proof. vm_compute. repeat split. Qed.

Section NotOpened.

Variable k : kernel.

(** Every way the loop of [case 'r'] can end. *)
Lemma read_all_outcomes a0 p0 p1 p2 s :
  pports s = [p0; p1; p2] -> multi_port_mode s = true ->
  exists o s' evs, case_read k [a0] s = (o, s') /\ advances s s' evs /\
    Forall (fun c => exists q, c = sys_ioctl q PPRSTATUS /\ is_open q = true)
           (calls evs) /\
    ((exists plhs, o = Ret plhs /\
        is_open p0 = true /\ is_open p1 = true /\ is_open p2 = true) \/
     (o = Throw msg_rstatus /\ aborted (trace s) (trace s')) \/
     (o = Throw msg_not_opened /\
        (is_open p0 = false \/ is_open p1 = false \/ is_open p2 = false))).
Proof.
  intros Hpp Hm.
  rewrite (case_read_multi _ _ s Hm). cbn [for_each seq].
  unfold bind at 1.
  destruct (read_slot_cases k 0 p0 [] s)
    as (o0 & s0 & ev0 & E0 & A0 & F0 & C0); [by rewrite Hpp|]; rewrite E0.
  destruct C0 as [(r0 & O0 & -> & _ & ->)|[(_ & -> & Hab)|(O0 & -> & ->)]].
  2:{ exists (Throw msg_rstatus), s0, ev0. repeat (split; [done|]). right; left. done. }
  2:{ exists (Throw msg_not_opened), s0, []. repeat (split; [done|]).
      right; right. split; [done|]. by left. }
  unfold bind at 1. pose proof A0 as [S0 T0].
  destruct (read_slot_cases k 1 p1 ([] ++ [stored r0 mod 256]) s0)
    as (o1 & s1 & ev1 & E1 & A1 & F1 & C1);
    [by rewrite (advances_pports _ _ _ _ A0), Hpp|]; rewrite E1.
  pose proof A1 as [S1 T1].
  assert (A01 : advances s s1 ([(sys_ioctl p0 PPRSTATUS, r0)] ++ ev1)).
  { split; [congruence | by rewrite T1, T0, <- app_assoc]. }
  assert (F01 : Forall (fun c => exists q, c = sys_ioctl q PPRSTATUS /\ is_open q = true)
                  (calls ([(sys_ioctl p0 PPRSTATUS, r0)] ++ ev1))).
  { unfold calls in *. rewrite List.map_app. by apply Forall_app. }
  destruct C1 as [(r1 & O1 & -> & _ & ->)|[(_ & -> & Hab)|(O1 & -> & ->)]].
  2:{ exists (Throw msg_rstatus), s1, ([(sys_ioctl p0 PPRSTATUS, r0)] ++ ev1).
      repeat (split; [done|]). right; left. split; [done|].
      rewrite T0 in Hab. by apply aborted_later in Hab. }
  2:{ exists (Throw msg_not_opened), s1, ([(sys_ioctl p0 PPRSTATUS, r0)] ++ []).
      repeat (split; [done|]). right; right. split; [done|]. right; by left. }
  unfold bind at 1.
  destruct (read_slot_cases k 2 p2
              (([] ++ [stored r0 mod 256]) ++ [stored r1 mod 256]) s1)
    as (o2 & s2 & ev2 & E2 & A2 & F2 & C2);
    [by rewrite (advances_pports _ _ _ _ A1), (advances_pports _ _ _ _ A0), Hpp|];
    rewrite E2.
  pose proof A2 as [S2 T2].
  set (ev01 := [(sys_ioctl p0 PPRSTATUS, r0)] ++ [(sys_ioctl p1 PPRSTATUS, r1)]) in *.
  destruct A01 as [S01 T01].
  assert (A02 : advances s s2 (ev01 ++ ev2)).
  { split; [congruence | by rewrite T2, T01, <- app_assoc]. }
  assert (F02 : Forall (fun c => exists q, c = sys_ioctl q PPRSTATUS /\ is_open q = true)
                  (calls (ev01 ++ ev2))).
  { unfold calls in *. rewrite List.map_app. by apply Forall_app. }
  destruct C2 as [(r2 & O2 & -> & _ & ->)|[(_ & -> & Hab)|(O2 & -> & ->)]].
  - eexists _, s2, _. split; [reflexivity|]. repeat (split; [done|]).
    left. eexists. done.
  - exists (Throw msg_rstatus), s2, (ev01 ++ ev2).
    repeat (split; [done|]). right; left. split; [done|].
    rewrite T01 in Hab. by apply aborted_later in Hab.
  - exists (Throw msg_not_opened), s2, (ev01 ++ []).
    repeat (split; [done|]). right; right. split; [done|]. right; by right.
Qed.

Lemma case_read_slot0_closed a0 p s :
  pports s !! 0%nat = Some p -> is_open p = false ->
  case_read k [a0] s = (Throw msg_not_opened, s).
Proof.
  intros Hp Hc. destruct (multi_port_mode s) eqn:Hm.
  - rewrite (case_read_multi _ _ s Hm). cbn [for_each seq].
    unfold bind, index. rewrite Hp. by rewrite (readPort_closed _ _ _ Hc).
  - rewrite (case_read_single _ _ s Hm).
    unfold bind, index. rewrite Hp. by rewrite (readPort_closed _ _ _ Hc).
Qed.

Lemma case_write_closed a0 arg d b p s :
  mxGetScalar arg = Some d -> to_uchar d = Some b ->
  0 <= writing_port_idx s ->
  pports s !! Z.to_nat (writing_port_idx s) = Some p -> is_open p = false ->
  case_write k [a0; arg] s = (Throw msg_not_opened, s).
Proof.
  intros Hd Hb Hi Hp Hc. unfold case_write. cbn [length].
  destruct (decide _); [done|]. cbn. rewrite Hd, Hb.
  unfold bind, get, index. destruct (Z.ltb_spec (writing_port_idx s) 0); [lia|].
  rewrite Hp. by rewrite (writePort_closed _ _ _ _ Hc).
Qed.

End NotOpened.

(** C5. A handle that is not open makes [writePort] and [readPort] raise
    "Parallel port was not opened" without a system call, and so do
    [ppMEG('write', v)] when the write target is not open and
    [ppMEG('read')] when slot 0 is not open: the state, trace included, is
    the one before the call.  In multi-port mode a later slot that is not
    open gives the same error once the open slots before it were read, and
    no call is made on a handle that is not open.  The message differs from
    every message raised for a failed system call. *)
Theorem not_opened_is_a_precondition_error (k : kernel) :
  (forall b p s, is_open p = false ->
     writePort k b p s = (Throw msg_not_opened, s)) /\
  (forall p s, is_open p = false ->
     readPort k p s = (Throw msg_not_opened, s)) /\
  (forall rest arg d b p s,
     mxGetScalar arg = Some d -> to_uchar d = Some b ->
     0 <= writing_port_idx s ->
     pports s !! Z.to_nat (writing_port_idx s) = Some p -> is_open p = false ->
     mexFunction k [mxChar (String "w" rest); arg] s = (Throw msg_not_opened, s)) /\
  (forall rest p s,
     pports s !! 0%nat = Some p -> is_open p = false ->
     mexFunction k [mxChar (String "r" rest)] s = (Throw msg_not_opened, s)) /\
  (forall rest p0 p1 p2 s,
     pports s = [p0; p1; p2] -> multi_port_mode s = true ->
     is_open p0 = false \/ is_open p1 = false \/ is_open p2 = false ->
     let r := mexFunction k [mxChar (String "r" rest)] s in
     Forall succeeded (since s r.2) ->
     r.1 = Throw msg_not_opened /\
     Forall (fun c => exists q, c = sys_ioctl q PPRSTATUS /\ is_open q = true)
            (calls (since s r.2))) /\
  msg_not_opened ∉
    [msg_open; msg_claim; msg_wdata; msg_rstatus; msg_release; msg_close].
Proof.
  split; [apply writePort_closed|]. split; [apply readPort_closed|].
  split.
  { intros rest arg d b p s Hd Hb Hi Hp Hc.
    by rewrite mexFunction_w, (case_write_closed k _ arg d b p s). }
  split.
  { intros rest p s Hp Hc.
    by rewrite mexFunction_r, (case_read_slot0_closed k _ p s). }
  split.
  { intros rest p0 p1 p2 s Hpp Hm Hc r.
    assert (E : r = registered (case_read k [mxChar (String "r" rest)] s))
      by apply mexFunction_r.
    clearbody r. subst r.
    destruct (read_all_outcomes k (mxChar (String "r" rest)) p0 p1 p2 s Hpp Hm)
      as (o & s' & evs & E & [_ T] & F & [(plhs & -> & O0 & O1 & O2)|[[-> Hab]|[-> _]]]);
      rewrite E; cbn; intros Hall.
    - exfalso. destruct Hc as [?|[?|?]]; congruence.
    - exfalso. by apply (aborted_not_succeeded s s').
    - split; [done|]. by rewrite (since_app s s' evs T). }
  rewrite !not_elem_of_cons. repeat split; try discriminate.
  apply not_elem_of_nil.
Qed.

Section OpenAll.

Variable k : kernel.

Lemma for_each_app {A} l1 l2 (body : nat -> A -> M A) a s :
  for_each (l1 ++ l2) body a s =
    match for_each l1 body a s with
    | (Ret a', s') => for_each l2 body a' s'
    | (Throw msg, s') => (Throw msg, s')
    | (Undef, s') => (Undef, s')
    end.
Proof.
  revert a s. induction l1 as [|i l1 IH]; intros a s; cbn; [done|].
  unfold bind. destruct (body i a s) as [[a'|msg|] s']; [apply IH | done..].
Qed.

(** A turn of the loop of [case 'o'] that returns has closed the slot,
    opened and claimed its address, and stored the new descriptor. *)
Lemma reopen_slot_ret j s s' :
  reopen_slot k j s = (Ret tt, s') ->
  exists a o evs,
    addresses s !! j = Some a /\
    trace s' = trace s ++ evs /\ (sys_open a, o) ∈ evs /\
    Forall succeeded evs /\
    pports s' = <[j := ret o]> (pports s) /\
    (j < length (pports s))%nat /\
    addresses s' = addresses s.
Proof.
  unfold reopen_slot. intros E.
  destruct (pports s !! j) as [p|] eqn:Hp.
  2:{ unfold bind at 1, unload_slot, bind, index in E. by rewrite Hp in E. }
  destruct (unload_slot_cases k j p s Hp)
    as (o1 & s1 & ev1 & E1 & T1 & A1 & _ & [(-> & P1 & _ & F1)|(m & -> & _)]);
    unfold bind at 1 in E; rewrite E1 in E; [|done].
  unfold bind at 1, index in E.
  destruct (addresses s1 !! j) as [a|] eqn:Ha; [|done].
  unfold bind at 1 in E.
  destruct (openPort_cases k a s1)
    as (o2 & s2 & ev2 & E2 & [S2 T2] & [(o & c & -> & -> & F2)|(m & -> & _)]);
    rewrite E2 in E; [|done].
  apply statics_inv in S2 as (P2 & A2 & _).
  unfold set_pport in E. destruct (decide _) as [Hlt|]; [|done].
  injection E as <-. exists a, o, (ev1 ++ [(sys_open a, o); (sys_ioctl (ret o) PPCLAIM, c)]).
  split; [by rewrite <- A1|]. cbn.
  split; [by rewrite T2, T1, <- app_assoc|].
  split; [apply elem_of_app; right; by left|].
  split; [by apply Forall_app|].
  split; [by rewrite P2, P1, list_insert_insert_eq|].
  split; [by apply lookup_lt_Some in Hp | congruence].
Qed.

(** The turns for the slots below [n], when all of them returned. *)
Lemma reopen_prefix n s s1 :
  for_each (seq 0 n) (fun j _ => reopen_slot k j) tt s = (Ret tt, s1) ->
  addresses s1 = addresses s /\
  (forall j, (n <= j)%nat -> pports s1 !! j = pports s !! j) /\
  exists evs, trace s1 = trace s ++ evs /\ Forall succeeded evs /\
    forall j, (j < n)%nat ->
      exists aj o, addresses s !! j = Some aj /\ (sys_open aj, o) ∈ evs /\
                   pports s1 !! j = Some (ret o).
Proof.
  revert s1. induction n as [|n IH]; intros s1.
  - cbn. intros [= <-]. split; [done|]. split; [done|].
    exists []. split; [by rewrite app_nil_r|]. split; [constructor|]. lia.
  - rewrite seq_S, for_each_app. cbn [Nat.add].
    destruct (for_each (seq 0 n) _ tt s) as [[[]|msg|] s0] eqn:E0; [|done..].
    destruct (IH s0 eq_refl) as (A0 & P0 & evs & T0 & F0 & L0).
    cbn [for_each]. unfold bind at 1.
    destruct (reopen_slot k n s0) as [[[]|msg|] s'] eqn:E1; [|done..].
    cbn. intros [= <-].
    destruct (reopen_slot_ret n s0 s' E1)
      as (a & o & ev1 & Ha & T1 & Hin & F1 & P1 & Hlt & A1).
    split; [congruence|]. split.
    { intros j Hj. rewrite P1, list_lookup_insert_ne by lia. apply P0. lia. }
    exists (evs ++ ev1). split; [by rewrite T1, T0, <- app_assoc|].
    split; [by apply Forall_app|].
    intros j Hj. destruct (decide (j = n)) as [->|Hne].
    + exists a, o. split; [congruence|].
      split; [apply elem_of_app; by right|].
      rewrite P1. by apply list_lookup_insert_eq.
    + destruct (L0 j) as (aj & oj & Haj & Hoj & Hpj); [lia|].
      exists aj, oj. split; [done|]. split; [apply elem_of_app; by left|].
      by rewrite P1, list_lookup_insert_ne.
Qed.

Lemma openPort_throw a s msg s' :
  openPort k (Some a) s = (Throw msg, s') ->
  (msg = msg_open \/ msg = msg_claim) /\ statics s' = statics s /\
  aborted (trace s) (trace s').
Proof.
  unfold openPort, bind, syscall; cbn.
  destruct (Z.ltb_spec (ret (k (trace s) (sys_open a))) 0) as [H1|H1]; cbn.
  - intros [= <- <-]. split; [by left|]. split; [done|]. cbn.
    by apply (aborted_last _ []).
  - destruct (Z.ltb_spec
      (ret (k (trace s ++ [(sys_open a, k (trace s) (sys_open a))])
              (sys_ioctl (ret (k (trace s) (sys_open a))) PPCLAIM))) 0) as [H2|H2]; cbn.
    + intros [= <- <-]. split; [by right|]. split; [done|]. cbn.
      rewrite <- app_assoc. by apply (aborted_last _ [_]).
    + discriminate.
Qed.

Lemma unload_slot_ret i s s' :
  unload_slot k i s = (Ret tt, s') ->
  exists p evs, pports s !! i = Some p /\
    pports s' = <[i := unloaded p]> (pports s) /\
    addresses s' = addresses s /\
    trace s' = trace s ++ evs /\ Forall succeeded evs.
Proof.
  intros E. destruct (pports s !! i) as [p|] eqn:Hp.
  2:{ unfold unload_slot, bind, index in E. by rewrite Hp in E. }
  destruct (unload_slot_cases k i p s Hp)
    as (o1 & s1 & ev1 & E1 & T1 & A1 & _ & [(-> & P1 & _ & F1)|(m & -> & _)]);
    rewrite E1 in E; [|done].
  injection E as <-. by exists p, ev1.
Qed.

End OpenAll.

(** C7. [ppMEG('open')] when the turns for the slots below [i] returned,
    slot [i] was closed, and opening or claiming its address fails: the
    call raises the error of that failure in the state the failure left,
    the failed call being the last one made.  Each slot below [i] holds the
    descriptor this call got from opening its address, slot [i] is not
    open, and the slots above [i] hold what they held before the call. *)
Theorem open_all_stops_at_first_failure
    (k : kernel) (rest : string) (i : nat) (a msg : string) (s s1 s2 s3 : state) :
  (i < 3)%nat ->
  for_each (seq 0 i) (fun j _ => reopen_slot k j) tt s = (Ret tt, s1) ->
  unload_slot k i s1 = (Ret tt, s2) ->
  addresses s !! i = Some a ->
  openPort k (Some a) s2 = (Throw msg, s3) ->
  mexFunction k [mxChar (String "o" rest)] s = (Throw msg, s3) /\
  (msg = msg_open \/ msg = msg_claim) /\
  aborted (trace s) (trace s3) /\
  (forall j, (j < i)%nat ->
     exists aj o, addresses s !! j = Some aj /\ (sys_open aj, o) ∈ since s s3 /\
                  0 <= ret o /\ pports s3 !! j = Some (ret o)) /\
  (exists p, pports s !! i = Some p /\ pports s3 !! i = Some (unloaded p)) /\
  (forall j, (i < j)%nat -> pports s3 !! j = pports s !! j).
Proof.
  intros Hi E1 E2 Ha E3.
  destruct (reopen_prefix k i s s1 E1) as (A1 & P1 & evs & T1 & F1 & L1).
  destruct (unload_slot_ret k i s1 s2 E2) as (p & ev2 & Hp & P2 & A2 & T2 & F2).
  destruct (openPort_throw k a s2 msg s3 E3) as (Hmsg & S3 & Hab).
  apply statics_inv in S3 as (P3 & A3 & _).
  rewrite <- A1, <- A2 in Ha.
  split.
  { rewrite mexFunction_o. unfold case_open. cbn [length].
    destruct (decide _); [|done]. unfold bind at 1.
    replace (seq 0 3) with (seq 0 i ++ i :: seq (S i) (2 - i)).
    2:{ destruct i as [|[|[|]]]; try reflexivity; lia. }
    rewrite for_each_app, E1. cbn [for_each]. unfold bind at 1.
    unfold reopen_slot at 1. unfold bind at 1. rewrite E2.
    unfold bind at 1, index. rewrite Ha. unfold bind at 1. by rewrite E3. }
  split; [done|].
  assert (T3 : exists ev3, trace s3 = trace s ++ evs ++ ev2 ++ ev3).
  { destruct Hab as (ev & e & -> & _). exists (ev ++ [e]).
    by rewrite T2, T1, <- !app_assoc. }
  destruct T3 as (ev3 & T3).
  split.
  { rewrite T2, T1, <- app_assoc in Hab. by apply aborted_later in Hab. }
  split.
  { intros j Hj. destruct (L1 j Hj) as (aj & o & Haj & Hin & Hpj).
    exists aj, o. split; [done|].
    split; [rewrite (since_app s s3 _ T3); apply elem_of_app; by left|].
    split.
    { rewrite Forall_forall in F1. by apply (F1 (sys_open aj, o)). }
    rewrite P3, P2, list_lookup_insert_ne by lia. done. }
  split.
  { exists p. split; [rewrite <- (P1 i) by lia; done|].
    rewrite P3, P2. apply list_lookup_insert_eq. by apply lookup_lt_Some in Hp. }
  intros j Hj. rewrite P3, P2, list_lookup_insert_ne by lia. apply P1. lia.
Qed.

(** ** The byte [ppMEG('write', v)] sends *)

Lemma to_uchar_range d b : to_uchar d = Some b -> 0 <= b <= 255.
Proof.
  unfold to_uchar. destruct (integral_part d) as [v|]; [|done].
  destruct (Z.leb_spec 0 v), (Z.leb_spec v 255); cbn; intros [= <-]; lia.
Qed.

(** 255 and -0.5 convert; 256 and -1 are outside what C defines. *)
Example to_uchar_examples :
  to_uchar (S754_finite false 255 0) = Some 255 /\
  to_uchar (S754_finite true 1 (-1)) = Some 0 /\
  to_uchar (S754_finite false 256 0) = None /\
  to_uchar (S754_finite true 1 0) = None.
Proof. repeat split. Qed.

(** X11. With the write target open, the one system call of the command
    is [PPWDATA] on that handle with the integral part of the argument;
    there is no test of the range.  The command returns when the call
    succeeded and raises the [PPWDATA] error when it failed; the handles,
    addresses and mode flags are as before in both cases. *)
Lemma write_sends_integral_part k rest arg d b p s :
  mxGetScalar arg = Some d -> to_uchar d = Some b ->
  0 <= writing_port_idx s ->
  pports s !! Z.to_nat (writing_port_idx s) = Some p -> is_open p = true ->
  exists o s' r,
    mexFunction k [mxChar (String "w" rest); arg] s = (o, s') /\
    since s s' = [(sys_ioctl p (PPWDATA b), r)] /\
    statics s' = statics s /\
    ((o = Ret [] /\ 0 <= ret r) \/ (o = Throw msg_wdata /\ ret r < 0)).
Proof.
  intros Hd Hb Hi Hp Ho. rewrite mexFunction_w.
  unfold case_write. cbn [length]. destruct (decide _); [done|]. cbn.
  rewrite Hd, Hb. unfold bind at 1, get.
  destruct (Z.ltb_spec (writing_port_idx s) 0); [lia|].
  unfold bind at 1, index. rewrite Hp. unfold bind.
  destruct (writePort_cases k b p s Ho)
    as (o & s' & r & E & [S T] & [[-> Hr]|[-> Hr]]); rewrite E; cbn.
  - eexists _, _, r. split; [reflexivity|].
    split; [by apply since_app|]. split; [done|]. by left.
  - eexists _, _, r. split; [reflexivity|].
    split; [by apply since_app|]. split; [done|]. by right.
Qed.

(** ** The properties at work on the test double *)

Ltac all_succeeded :=
  match goal with
  | |- Forall succeeded ?l =>
      let l' := eval vm_compute in l in
      change (Forall succeeded l');
      repeat (constructor; [unfold succeeded; cbn; lia|]); constructor
  end.

Lemma open_address_slot0_only_witness :
  exists evs o c,
    (mexFunction three_ports [mxChar "open"; mxChar "/dev/parport1"] opened_all).1
      = Ret [] /\
    since opened_all
      (mexFunction three_ports [mxChar "open"; mxChar "/dev/parport1"] opened_all).2
      = evs ++ [(sys_open "/dev/parport1", o); (sys_ioctl (ret o) PPCLAIM, c)] /\
    calls evs = closing 3 /\
    pports
      (mexFunction three_ports [mxChar "open"; mxChar "/dev/parport1"] opened_all).2
      !! 0%nat = Some (ret o).
Proof.
  destruct (open_address_slot0_only three_ports "pen" "/dev/parport1" opened_all)
    as (_ & _ & _ & _ & _ & H).
  apply H; [reflexivity | all_succeeded].
Defined.

Lemma close_releases_all_and_resets_witness :
  (mexFunction three_ports [mxChar "close"] opened_all).1 = Ret [] /\
  calls (since opened_all (mexFunction three_ports [mxChar "close"] opened_all).2)
    = closing 3 ++ closing 4 ++ closing 5 /\
  pports (mexFunction three_ports [mxChar "close"] opened_all).2
    = [unloaded 3; unloaded 4; unloaded 5] /\
  Forall (fun p => is_open p = false)
    (pports (mexFunction three_ports [mxChar "close"] opened_all).2) /\
  use_multiple_ports (mexFunction three_ports [mxChar "close"] opened_all).2 = 1 /\
  writing_port_idx (mexFunction three_ports [mxChar "close"] opened_all).2 = 1 /\
  multi_port_mode (mexFunction three_ports [mxChar "close"] opened_all).2 = true /\
  addresses (mexFunction three_ports [mxChar "close"] opened_all).2
    = addresses opened_all.
Proof.
  apply (close_releases_all_and_resets three_ports "lose" opened_all 3 4 5);
    [reflexivity | all_succeeded].
Defined.

Lemma close_when_nothing_open_witness :
  (mexFunction three_ports [mxChar "close"] initial).1 = Ret [] /\
  trace (mexFunction three_ports [mxChar "close"] initial).2 = [].
Proof.
  destruct (close_when_nothing_open three_ports "lose" initial 0 0 0)
    as (H1 & _ & H2 & _); try reflexivity.
  split; [exact H1 | exact H2].
Defined.

Lemma not_opened_is_a_precondition_error_witness :
  mexFunction three_ports [mxChar "write"; double_of_byte 200] initial
    = (Throw msg_not_opened, initial) /\
  mexFunction three_ports [mxChar "read"] initial
    = (Throw msg_not_opened, initial).
Proof.
  destruct (not_opened_is_a_precondition_error three_ports)
    as (_ & _ & Hw & Hr & _).
  split.
  - apply (Hw "rite" _ (S754_finite false 200 0) 200 0); try reflexivity.
    cbn. lia.
  - by apply (Hr "ead" 0).
Defined.

Lemma read_returns_one_value_per_port_witness :
  (exists r0 r1 r2,
     since opened_all (mexFunction three_ports [mxChar "read"] opened_all).2
       = [(sys_ioctl 3 PPRSTATUS, r0); (sys_ioctl 4 PPRSTATUS, r1);
          (sys_ioctl 5 PPRSTATUS, r2)] /\
     (mexFunction three_ports [mxChar "read"] opened_all).1
       = Ret [stored r0 mod 256; stored r1 mod 256; stored r2 mod 256]) /\
  (exists r0,
     since opened_one (mexFunction three_ports [mxChar "read"] opened_one).2
       = [(sys_ioctl 3 PPRSTATUS, r0)] /\
     (mexFunction three_ports [mxChar "read"] opened_one).1
       = Ret [stored r0 mod 256]).
Proof.
  split.
  - destruct (read_returns_one_value_per_port three_ports "ead" opened_all)
      as (_ & H & _).
    apply H; try reflexivity. all_succeeded.
  - destruct (read_returns_one_value_per_port three_ports "ead" opened_one)
      as (_ & _ & H & _).
    apply H; try reflexivity. all_succeeded.
Defined.

Lemma open_all_stops_at_first_failure_witness :
  mexFunction one_port [mxChar "open"] initial
    = (Throw msg_open, lone_slot1_failed) /\
  pports lone_slot1_failed = [3; 0; 0].
Proof.
  destruct (open_all_stops_at_first_failure one_port "pen" 1 "/dev/parport1"
              msg_open initial lone_slot0 lone_slot1_closed lone_slot1_failed)
    as (H & _); try reflexivity; [lia|].
  split; [exact H | reflexivity].
Defined.

Lemma reachable_modes_agree_witness : modes_agree opened_one.
Proof.
  apply (reachable_modes_agree three_ports).
  apply (reach_call three_ports initial
           [mxChar "open"; mxChar "/dev/parport1"]).
  apply reach_initial.
Defined.

(** After [ppMEG('open', address)] the byte goes to slot 0. *)
Example write_after_open_address :
  since opened_one
    (mexFunction three_ports [mxChar "write"; double_of_byte 200] opened_one).2
  = [(sys_ioctl 3 (PPWDATA 200), mkReply 0 0)].
Proof. reflexivity. Qed.

(** ** Well-formed states and defined behaviour *)

Section Triples.

Context (U : Prop) (I : state -> Prop).

Lemma triple_ret {A} (a : A) (Q : A -> Prop) : Q a -> triple U I (ret_ a) Q.
Proof. intros Ha s Hs. by split. Qed.

Lemma triple_throw {A} msg (Q : A -> Prop) : triple U I (mexErrMsgTxt msg) Q.
Proof. intros s Hs. exact Hs. Qed.

Lemma triple_undefined {A} (Q : A -> Prop) : U -> triple U I undefined Q.
Proof. intros Hu s Hs. by split. Qed.

Lemma triple_get {A} (g : state -> A) : triple U I (get g) (fun _ => True).
Proof. intros s Hs. by split. Qed.

Lemma triple_put f : (forall s, I s -> I (f s)) -> triple U I (put f) (fun _ => True).
Proof. intros Hf s Hs. split; [done | by apply Hf]. Qed.

Lemma triple_bind {A B} (m : M A) (g : A -> M B) Q R :
  triple U I m Q -> (forall a, Q a -> triple U I (g a) R) ->
  triple U I (bind m g) R.
Proof.
  intros Hm Hg s Hs. unfold bind. specialize (Hm s Hs).
  destruct (m s) as [[a|msg|] s']; [|done..].
  destruct Hm as [Ha Hs']. by apply Hg.
Qed.

Lemma triple_weaken {A} (m : M A) (Q Q' : A -> Prop) :
  triple U I m Q -> (forall a, Q a -> Q' a) -> triple U I m Q'.
Proof.
  intros Hm HQ s Hs. specialize (Hm s Hs).
  destruct (m s) as [[a|msg|] s']; [|done..].
  destruct Hm as [Ha Hs']. split; [by apply HQ | done].
Qed.

Lemma triple_if {A} (b : bool) (m1 m2 : M A) Q :
  triple U I m1 Q -> triple U I m2 Q -> triple U I (if b then m1 else m2) Q.
Proof. destruct b; trivial. Qed.

Lemma triple_for_each {A} l (body : nat -> A -> M A) a (Q : A -> Prop) :
  (forall i x, i ∈ l -> Q x -> triple U I (body i x) Q) -> Q a ->
  triple U I (for_each l body a) Q.
Proof.
  revert a. induction l as [|i l IH]; intros a Hb Ha; cbn.
  - by apply triple_ret.
  - apply (triple_bind _ _ Q); [apply Hb; [by left | done]|].
    intros x Hx. apply IH; [|done]. intros j y Hj. apply Hb. by right.
Qed.

End Triples.

Section WellFormed.

Context (U : Prop) (k : kernel).

Lemma well_formed_trace v s : well_formed s -> well_formed (with_trace v s).
Proof. done. Qed.

Lemma well_formed_console v s : well_formed s -> well_formed (with_console v s).
Proof. done. Qed.

Lemma triple_syscall c : triple U well_formed (syscall k c) (fun _ => True).
Proof. intros s Hs. by split. Qed.

Lemma triple_printf line : triple U well_formed (mexPrintf line) (fun _ => True).
Proof. intros s Hs. by split. Qed.

Lemma triple_index_pports i :
  (i < 3)%nat -> triple U well_formed (index pports i) (fun p => 0 <= p).
Proof.
  intros Hi s Hs. unfold index. destruct Hs as (Hlen & Hpos & Hrest).
  destruct (pports s !! i) as [p|] eqn:Hp.
  - split; [|done]. rewrite Forall_forall in Hpos. apply Hpos.
    by apply list_elem_of_lookup_2 in Hp.
  - apply lookup_ge_None in Hp. lia.
Qed.

Lemma triple_index_addresses i :
  (i < 3)%nat -> triple U well_formed (index addresses i) (fun _ => True).
Proof.
  intros Hi s Hs. unfold index. pose proof Hs as (_ & _ & Had & _).
  destruct (addresses s !! i) as [a|] eqn:Ha; [done|].
  apply lookup_ge_None in Ha. rewrite Had in Ha. cbn in Ha. lia.
Qed.

Lemma triple_set_pport i v :
  (i < 3)%nat -> 0 <= v -> triple U well_formed (set_pport i v) (fun _ => True).
Proof.
  intros Hi Hv s (Hlen & Hpos & Had & Hidx). unfold set_pport.
  destruct (decide _) as [_|Hn]; [|lia].
  split; [done|]. unfold well_formed. cbn.
  split; [by rewrite length_insert|].
  split; [|done]. by apply Forall_insert.
Qed.

Lemma triple_openPort a : triple U well_formed (openPort k a) (fun p => 0 <= p).
Proof.
  unfold openPort. destruct a as [path|]; [|apply triple_throw].
  apply (triple_bind _ _ _ _ (fun _ => True)); [apply triple_syscall | intros o _].
  destruct (Z.ltb_spec (ret o) 0); [apply triple_throw|].
  apply (triple_bind _ _ _ _ (fun _ => True)); [apply triple_syscall | intros c _].
  apply triple_if;
    (apply (triple_bind _ _ _ _ (fun _ => True)); [apply triple_printf | intros _ _]).
  - apply triple_throw.
  - by apply triple_ret.
Qed.

Lemma triple_unloadPort p :
  0 <= p -> triple U well_formed (unloadPort k p) (fun p' => 0 <= p').
Proof.
  intros Hp. unfold unloadPort. apply triple_if; [|by apply triple_ret].
  apply (triple_bind _ _ _ _ (fun _ => True)); [apply triple_syscall | intros r _].
  apply triple_if.
  { apply (triple_bind _ _ _ _ (fun _ => True)); [apply triple_printf | intros _ _].
    apply triple_throw. }
  apply (triple_bind _ _ _ _ (fun _ => True)); [apply triple_syscall | intros c _].
  apply triple_if;
    (apply (triple_bind _ _ _ _ (fun _ => True)); [apply triple_printf | intros _ _]).
  - apply triple_throw.
  - by apply triple_ret.
Qed.

Lemma triple_readPort p : triple U well_formed (readPort k p) (fun _ => True).
Proof.
  unfold readPort. apply triple_if; [|apply triple_throw].
  apply (triple_bind _ _ _ _ (fun _ => True)); [apply triple_syscall | intros r _].
  apply triple_if.
  - apply (triple_bind _ _ _ _ (fun _ => True)); [apply triple_printf | intros _ _].
    apply triple_throw.
  - by apply triple_ret.
Qed.

Lemma triple_writePort b p : triple U well_formed (writePort k b p) (fun _ => True).
Proof.
  unfold writePort. apply triple_if; [|apply triple_throw].
  apply (triple_bind _ _ _ _ (fun _ => True)); [apply triple_syscall | intros r _].
  apply triple_if.
  - apply (triple_bind _ _ _ _ (fun _ => True)); [apply triple_printf | intros _ _].
    apply triple_throw.
  - by apply triple_ret.
Qed.

Lemma triple_unload_slot i :
  (i < 3)%nat -> triple U well_formed (unload_slot k i) (fun _ => True).
Proof.
  intros Hi. unfold unload_slot.
  apply (triple_bind _ _ _ _ (fun p => 0 <= p)); [by apply triple_index_pports | intros p Hp].
  apply (triple_bind _ _ _ _ (fun p => 0 <= p)); [by apply triple_unloadPort | intros p' Hp'].
  by apply triple_set_pport.
Qed.

Lemma triple_reopen_slot i :
  (i < 3)%nat -> triple U well_formed (reopen_slot k i) (fun _ => True).
Proof.
  intros Hi. unfold reopen_slot.
  apply (triple_bind _ _ _ _ (fun _ => True)); [by apply triple_unload_slot | intros _ _].
  apply (triple_bind _ _ _ _ (fun _ => True)); [by apply triple_index_addresses | intros a _].
  apply (triple_bind _ _ _ _ (fun p => 0 <= p)); [apply triple_openPort | intros p Hp].
  by apply triple_set_pport.
Qed.

Lemma in_seq_3 i : i ∈ seq 0 3 -> (i < 3)%nat.
Proof. rewrite list_elem_of_In, in_seq. lia. Qed.

Lemma triple_unloadAll : triple U well_formed (unloadAll k) (fun _ => True).
Proof.
  apply triple_for_each; [|done]. intros i _ Hi _.
  apply triple_unload_slot. by apply in_seq_3.
Qed.

End WellFormed.

Section DefinedBehaviour.

Variable k : kernel.

Lemma triple_case_open U prhs :
  triple U well_formed (case_open k prhs) (fun _ => True).
Proof.
  unfold case_open. destruct (decide _); [|destruct (decide _)].
  - apply (triple_bind _ _ _ _ (fun _ => True)); [|intros _ _; by apply triple_ret].
    apply triple_for_each; [|done]. intros i _ Hi _.
    apply triple_reopen_slot. by apply in_seq_3.
  - apply (triple_bind _ _ _ _ (fun _ => True)); [by apply triple_put | intros _ _].
    apply (triple_bind _ _ _ _ (fun _ => True)); [|intros _ _].
    { apply triple_put. intros s (? & ? & ? & _). repeat split; try done. by left. }
    apply (triple_bind _ _ _ _ (fun _ => True)); [apply triple_unload_slot; lia | intros _ _].
    apply (triple_bind _ _ _ _ (fun p => 0 <= p)); [apply triple_openPort | intros p Hp].
    apply (triple_bind _ _ _ _ (fun _ => True)); [apply triple_set_pport; [lia | done] | intros _ _].
    by apply triple_ret.
  - apply triple_throw.
Qed.

Lemma triple_case_read U prhs :
  triple U well_formed (case_read k prhs) (fun _ => True).
Proof.
  unfold case_read. destruct (decide _); [apply triple_throw|].
  apply (triple_bind _ _ _ _ (fun _ => True)); [apply triple_get | intros multi _].
  apply triple_if.
  - apply (triple_bind _ _ _ _ (fun _ => True)).
    { eapply triple_weaken; [apply (triple_index_pports _ 0); lia|done]. }
    intros p _.
    apply (triple_bind _ _ _ _ (fun _ => True)); [apply triple_readPort | intros b _].
    by apply triple_ret.
  - apply triple_for_each; [|done]. intros i plhs Hi _.
    apply (triple_bind _ _ _ _ (fun _ => True)).
    { eapply triple_weaken; [apply triple_index_pports; by apply in_seq_3|done]. }
    intros p _.
    apply (triple_bind _ _ _ _ (fun _ => True)); [apply triple_readPort | intros b _].
    by apply triple_ret.
Qed.

Lemma triple_case_close U prhs :
  triple U well_formed (case_close k prhs) (fun _ => True).
Proof.
  unfold case_close. destruct (decide _); [apply triple_throw|].
  apply (triple_bind _ _ _ _ (fun _ => True)); [apply triple_unloadAll | intros _ _].
  apply (triple_bind _ _ _ _ (fun _ => True)); [by apply triple_put | intros _ _].
  apply (triple_bind _ _ _ _ (fun _ => True)); [|intros _ _; by apply triple_ret].
  apply triple_put. intros s (? & ? & ? & _). repeat split; try done. by right.
Qed.

(** The write target is inside [pports] in a well-formed state. *)
Lemma triple_write_target U b :
  triple U well_formed
    (idx <- get writing_port_idx ;;
     if idx <? 0 then undefined
     else p <- index pports (Z.to_nat idx) ;; writePort k b p ;;; ret_ (@nil Z))%prog
    (fun _ => True).
Proof.
  intros s Hs. unfold bind at 1, get.
  assert (Hi : (Z.to_nat (writing_port_idx s) < 3)%nat /\ (writing_port_idx s <? 0) = false).
  { destruct Hs as (_ & _ & _ & [-> | ->]); split; (lia || reflexivity). }
  destruct Hi as [Hi ->]. revert s Hs Hi. intros s. generalize (Z.to_nat (writing_port_idx s)).
  intros i Hs Hi. revert s Hs.
  apply (triple_bind _ _ _ _ (fun _ => True)).
  { eapply triple_weaken; [by apply triple_index_pports|done]. }
  intros p _.
  apply (triple_bind _ _ _ _ (fun _ => True)); [apply triple_writePort | intros _ _].
  by apply triple_ret.
Qed.

Lemma triple_case_write action args :
  first_char action = "w"%char ->
  triple (~ well_typed (mxChar action :: args)) well_formed
    (case_write k (mxChar action :: args)) (fun _ => True).
Proof.
  intros Hw. unfold case_write. destruct (decide _) as [|Hlen]; [apply triple_throw|].
  destruct args as [|arg [|]]; cbn in Hlen; try lia. cbn.
  destruct (mxGetScalar arg) as [d|] eqn:Hd.
  2:{ apply triple_undefined. intros (a & [= <-] & H).
      destruct (H Hw arg eq_refl) as (d & b & Hd' & _). congruence. }
  destruct (to_uchar d) as [b|] eqn:Hb.
  2:{ apply triple_undefined. intros (a & [= <-] & H).
      destruct (H Hw arg eq_refl) as (d' & b & Hd' & Hb'). congruence. }
  apply triple_write_target.
Qed.

(** Every call keeps the state well formed, and its behaviour is defined
    when its arguments are well typed. *)
Lemma triple_mexFunction prhs :
  triple (~ well_typed prhs) well_formed (mexFunction k prhs) (fun _ => True).
Proof.
  destruct prhs as [|[action|d] args].
  - apply (triple_bind _ _ _ _ (fun _ => True)); [|intros _ _; by apply triple_ret].
    unfold PrintHelp.
    repeat (apply (triple_bind _ _ _ _ (fun _ => True)); [apply triple_printf | intros _ _]).
    apply triple_printf.
  - unfold mexFunction, mxArrayToString.
    apply (triple_bind _ _ _ _ (fun _ => True)).
    2:{ intros plhs _.
        apply (triple_bind _ _ _ _ (fun _ => True)); [by apply triple_put | intros _ _].
        by apply triple_ret. }
    destruct (Ascii.eqb_spec (first_char action) "o"); [apply triple_case_open|].
    destruct (Ascii.eqb_spec (first_char action) "w"); [by apply triple_case_write|].
    destruct (Ascii.eqb_spec (first_char action) "r"); [apply triple_case_read|].
    destruct (Ascii.eqb_spec (first_char action) "c"); [apply triple_case_close|].
    apply triple_throw.
  - apply triple_undefined. by intros (a & [=] & _).
Qed.


End DefinedBehaviour.

(** X1. Every state a session reaches has three handles, none of them
    negative, the three default addresses (a user address given to
    [ppMEG('open', address)] is never stored), and slot 0 or 1 as the write
    target. *)
Theorem reachable_states_well_formed (k : kernel) (s : state) :
  reachable k s ->
  length (pports s) = 3%nat /\
  Forall (fun p => 0 <= p) (pports s) /\
  addresses s = ["/dev/parport0"; "/dev/parport1"; "/dev/parport4"] /\
  (writing_port_idx s = 0 \/ writing_port_idx s = 1).
Proof.
  intros Hs. change (well_formed s).
  induction Hs as [|s prhs _ IH].
  - repeat split; [by repeat constructor | by right].
  - pose proof (triple_mexFunction k prhs s IH) as H.
    destruct (mexFunction k prhs s) as [[plhs|msg|] s']; cbn; tauto.
Qed.


(** ** Argument counts and the exit hook *)

Section Calls.

Variable k : kernel.

Lemma preserves_put {X} (f : state -> X) g :
  (forall s, f (g s) = f s) -> preserves f (put g).
Proof. intros H s. apply H. Qed.

Lemma preserves_case_open {X} (f : state -> X) prhs :
  blind_to_io f -> (forall i, blind_to_slot i f) ->
  (forall v s, f (with_use_multiple_ports v s) = f s) ->
  (forall v s, f (with_writing_port_idx v s) = f s) ->
  preserves f (case_open k prhs).
Proof.
  intros Hio Hsl Hu Hw. unfold case_open.
  destruct (decide _); [|destruct (decide _)].
  - apply preserves_bind; [|intros _; apply preserves_ret].
    by apply preserves_open_all.
  - apply preserves_bind; [by apply preserves_put | intros _].
    apply preserves_bind; [by apply preserves_put | intros _].
    apply preserves_bind; [by apply preserves_unload_slot | intros _].
    apply preserves_bind; [by apply preserves_openPort | intros p].
    apply preserves_bind; [|intros _; apply preserves_ret].
    apply preserves_set_pport. intros s. apply Hsl.
  - apply preserves_throw.
Qed.

Lemma preserves_case_close {X} (f : state -> X) prhs :
  blind_to_io f -> (forall i, blind_to_slot i f) ->
  (forall v s, f (with_use_multiple_ports v s) = f s) ->
  (forall v s, f (with_writing_port_idx v s) = f s) ->
  preserves f (case_close k prhs).
Proof.
  intros Hio Hsl Hu Hw. unfold case_close.
  destruct (decide _); [apply preserves_throw|].
  apply preserves_bind; [by apply preserves_unloadAll | intros _].
  apply preserves_bind; [by apply preserves_put | intros _].
  apply preserves_bind; [by apply preserves_put | intros _].
  apply preserves_ret.
Qed.

Lemma blind_at_exit : blind_to_io at_exit.
Proof. split; reflexivity. Qed.

Lemma slot_blind_at_exit i : blind_to_slot i at_exit.
Proof. intros v s _. reflexivity. Qed.

(** The case taken never touches the exit hook. *)
Lemma case_keeps_at_exit action args s :
  let prhs := mxChar action :: args in
  let c := first_char action in
  at_exit
    ((if Ascii.eqb c "o" then case_open k prhs
      else if Ascii.eqb c "w" then case_write k prhs
      else if Ascii.eqb c "r" then case_read k prhs
      else if Ascii.eqb c "c" then case_close k prhs
      else mexErrMsgTxt msg_action) s).2 = at_exit s.
Proof.
  intros prhs c. revert s. repeat apply preserves_if.
  - apply preserves_case_open;
      [apply blind_at_exit | apply slot_blind_at_exit | done..].
  - apply preserves_case_write, blind_at_exit.
  - apply preserves_case_read, blind_at_exit.
  - apply preserves_case_close;
      [apply blind_at_exit | apply slot_blind_at_exit | done..].
  - apply preserves_throw.
Qed.

End Calls.

(** X3. A call with the wrong number of arguments for its action raises
    the message of that action and does nothing else: the statics, the
    trace and the console are as before and no exit hook is registered. *)
Theorem wrong_argument_count_is_rejected
    (k : kernel) (action : string) (args : list mxArray) (s : state) :
  let prhs := mxChar action :: args in
  let c := first_char action in
  (c = "o"%char -> (2 <= length args)%nat ->
   mexFunction k prhs s = (Throw msg_nargs_open, s)) /\
  (c = "w"%char -> length args <> 1%nat ->
   mexFunction k prhs s = (Throw msg_nargs_write, s)) /\
  (c = "r"%char -> length args <> 0%nat ->
   mexFunction k prhs s = (Throw msg_nargs_read, s)) /\
  (c = "c"%char -> length args <> 0%nat ->
   mexFunction k prhs s = (Throw msg_nargs_close, s)).
Proof.
  intros prhs c. subst prhs c. rewrite mexFunction_case.
  repeat split; intros Hc Hn; rewrite Hc; simpl (Ascii.eqb _ _); cbv iota.
  - unfold case_open. cbn [length].
    destruct (decide _); [lia|]. destruct (decide _); [lia | done].
  - unfold case_write. cbn [length].
    destruct (decide _) as [|Hd]; [done | lia].
  - unfold case_read. cbn [length].
    destruct (decide _) as [|Hd]; [done | lia].
  - unfold case_close. cbn [length].
    destruct (decide _) as [|Hd]; [done | lia].
Qed.

(** X4. The exit hook [unloadAll] is registered by a call exactly when the
    case it took returned: after the call the hook is registered if it was
    before or if the call had an action and returned; the usage call and a
    call that raises an error register nothing, so an [open] that fails
    part way leaves its ports claimed without the hook. *)
Theorem exit_hook_registered_on_return
    (k : kernel) (prhs : list mxArray) (s : state) :
  let r := mexFunction k prhs s in
  at_exit r.2 =
    at_exit s ||
    match prhs, r.1 with
    | _ :: _, Ret _ => true
    | _, _ => false
    end.
Proof.
  intros r. subst r. destruct prhs as [|[action|d] args].
  - rewrite orb_false_r. revert s.
    apply preserves_bind; [|intros _; apply preserves_ret].
    apply preserves_PrintHelp, blind_at_exit.
  - rewrite mexFunction_case.
    pose proof (case_keeps_at_exit k action args s) as H. cbn zeta in H.
    revert H. cbn zeta.
    match goal with |- context [registered ?x] => destruct x as [[plhs|msg|] s'] end;
      cbn; intros H.
    + by rewrite orb_true_r.
    + by rewrite orb_false_r.
    + by rewrite orb_false_r.
  - cbn. by rewrite orb_false_r.
Qed.

(** ** How [open] and [close] fail *)

Section Failures.

Variable k : kernel.

(** The three ways [openPort] ends. *)
Lemma openPort_outcomes a s :
  exists o s' r,
    openPort k (Some a) s = (o, s') /\ statics s' = statics s /\
    ((ret r < 0 /\ o = Throw msg_open /\
      trace s' = trace s ++ [(sys_open a, r)]) \/
     (0 <= ret r /\ exists c,
        trace s' = trace s ++ [(sys_open a, r); (sys_ioctl (ret r) PPCLAIM, c)] /\
        ((ret c < 0 /\ o = Throw msg_claim) \/
         (0 <= ret c /\ o = Ret (ret r))))).
Proof.
  unfold openPort, bind, syscall; cbn.
  destruct (Z.ltb_spec (ret (k (trace s) (sys_open a))) 0) as [H1|H1]; cbn.
  - eexists _, _, (k (trace s) (sys_open a)).
    split; [reflexivity|]. split; [done|]. left. done.
  - destruct (Z.ltb_spec
      (ret (k (trace s ++ [(sys_open a, k (trace s) (sys_open a))])
              (sys_ioctl (ret (k (trace s) (sys_open a))) PPCLAIM))) 0) as [H2|H2]; cbn.
    + eexists _, _, (k (trace s) (sys_open a)).
      split; [reflexivity|]. split; [done|]. right.
      split; [done|]. eexists. split; [cbn; by rewrite <- app_assoc|]. by left.
    + eexists _, _, (k (trace s) (sys_open a)).
      split; [reflexivity|]. split; [done|]. right.
      split; [done|]. eexists. split; [cbn; by rewrite <- app_assoc|]. by right.
Qed.

(** [unloadPort] raises only on an open handle, for its release or for its
    close, and the failed call is the last one. *)
Lemma unloadPort_throw p s m s' :
  unloadPort k p s = (Throw m, s') ->
  is_open p = true /\ statics s' = statics s /\
  ((m = msg_release /\ exists r,
      trace s' = trace s ++ [(sys_ioctl p PPRELEASE, r)] /\ ret r < 0) \/
   (m = msg_close /\ exists r c,
      trace s' = trace s ++ [(sys_ioctl p PPRELEASE, r); (sys_close p, c)] /\
      0 <= ret r /\ ret c < 0)).
Proof.
  unfold unloadPort, is_open. destruct (0 <? p); [|done].
  unfold bind, syscall; cbn.
  destruct (Z.ltb_spec (ret (k (trace s) (sys_ioctl p PPRELEASE))) 0) as [H1|H1]; cbn.
  - intros [= <- <-]. split; [done|]. split; [done|]. left.
    split; [done|]. by eexists.
  - destruct (Z.ltb_spec
      (ret (k (trace s ++ [(sys_ioctl p PPRELEASE, k (trace s) (sys_ioctl p PPRELEASE))])
              (sys_close p))) 0) as [H2|H2]; cbn; [|done].
    intros [= <- <-]. split; [done|]. split; [done|]. right.
    split; [done|]. eexists _, _. split; [by rewrite <- app_assoc | done].
Qed.

Lemma unload_slot_throw i s m s' :
  unload_slot k i s = (Throw m, s') ->
  exists p, pports s !! i = Some p /\ is_open p = true /\
    statics s' = statics s /\
    ((m = msg_release /\ exists r,
        trace s' = trace s ++ [(sys_ioctl p PPRELEASE, r)] /\ ret r < 0) \/
     (m = msg_close /\ exists r c,
        trace s' = trace s ++ [(sys_ioctl p PPRELEASE, r); (sys_close p, c)] /\
        0 <= ret r /\ ret c < 0)).
Proof.
  unfold unload_slot, bind, index.
  destruct (pports s !! i) as [p|]; [|done].
  destruct (unloadPort k p s) as [[p'|msg|] s1] eqn:E; [| |done].
  - unfold set_pport. by destruct (decide _).
  - intros [= <- <-]. exists p. split; [done|]. by apply unloadPort_throw.
Qed.

(** Every way [ppMEG('open', address)] ends. *)
Lemma open_address_outcomes a0 a s p0 :
  pports s !! 0%nat = Some p0 ->
  exists o s' evc,
    case_open k [a0; mxChar a] s = (o, s') /\
    modes s' = (0, 0) /\ addresses s' = addresses s /\
    ((exists m, o = Throw m /\ (m = msg_release \/ m = msg_close) /\
        is_open p0 = true /\ pports s' = pports s /\
        aborted (trace s) (trace s')) \/
     (calls evc = closing p0 /\ Forall succeeded evc /\
      pports s' !! 0%nat = Some (unloaded p0) /\
      exists r, ret r < 0 /\ o = Throw msg_open /\
        trace s' = trace s ++ evc ++ [(sys_open a, r)]) \/
     (calls evc = closing p0 /\ Forall succeeded evc /\
      pports s' !! 0%nat = Some (unloaded p0) /\
      exists r c, 0 <= ret r /\ ret c < 0 /\ o = Throw msg_claim /\
        trace s' = trace s ++ evc ++
                   [(sys_open a, r); (sys_ioctl (ret r) PPCLAIM, c)]) \/
     (calls evc = closing p0 /\ Forall succeeded evc /\
      exists r c, 0 <= ret r /\ 0 <= ret c /\ o = Ret [] /\
        pports s' !! 0%nat = Some (ret r) /\
        trace s' = trace s ++ evc ++
                   [(sys_open a, r); (sys_ioctl (ret r) PPCLAIM, c)])).
Proof.
  intros H0. rewrite case_open_address.
  set (s0 := with_writing_port_idx 0 (with_use_multiple_ports 0 s)).
  unfold bind at 1.
  destruct (unload_slot_cases k 0 p0 s0 H0)
    as (o1 & s1 & evc & E1 & T1 & A1 & M1 & [(-> & P1 & C1 & F1)|(m & -> & P1 & O1 & Hab)]);
    rewrite E1.
  2:{ exists (Throw m), s1, evc. split; [done|]. split; [done|]. split; [done|].
      left. exists m. split; [done|].
      destruct (unload_slot_throw 0 s0 m s1 E1) as (p & _ & _ & _ & [[-> _]|[-> _]]);
        auto. }
  assert (Hlen : (0 < length (pports s))%nat) by (by apply lookup_lt_Some in H0).
  unfold bind at 1.
  destruct (openPort_outcomes a s1)
    as (o2 & s2 & r & E2 & S2 & [(Hr & -> & T2)|(Hr & c & T2 & [[Hc ->]|[Hc ->]])]);
    rewrite E2; apply statics_inv in S2 as (P2 & A2 & M2).
  - exists (Throw msg_open), s2, evc.
    split; [done|]. split; [by rewrite M2, M1|]. split; [by rewrite A2, A1|].
    right; left. split; [done|]. split; [done|].
    split; [rewrite P2, P1; by apply list_lookup_insert_eq|].
    exists r. split; [done|]. split; [done|]. by rewrite T2, T1, <- app_assoc.
  - exists (Throw msg_claim), s2, evc.
    split; [done|]. split; [by rewrite M2, M1|]. split; [by rewrite A2, A1|].
    right; right; left. split; [done|]. split; [done|].
    split; [rewrite P2, P1; by apply list_lookup_insert_eq|].
    exists r, c. split; [done|]. split; [done|]. split; [done|].
    by rewrite T2, T1, <- app_assoc.
  - unfold bind, set_pport.
    destruct (decide _) as [_|Hn]; [|by rewrite P2, P1, length_insert in Hn].
    eexists (Ret []), _, evc. split; [reflexivity|].
    split; [change (modes s2 = (0, 0)); by rewrite M2, M1|].
    split; [change (addresses s2 = addresses s); by rewrite A2, A1|]. cbn.
    right; right; right. split; [done|]. split; [done|].
    exists r, c. split; [done|]. split; [done|]. split; [done|].
    split; [apply list_lookup_insert_eq; by rewrite P2, P1, length_insert|].
    by rewrite T2, T1, <- app_assoc.
Qed.

End Failures.

Lemma case_write_cases k a0 arg d b p s :
  mxGetScalar arg = Some d -> to_uchar d = Some b ->
  0 <= writing_port_idx s ->
  pports s !! Z.to_nat (writing_port_idx s) = Some p -> is_open p = true ->
  exists o s' w,
    case_write k [a0; arg] s = (o, s') /\
    advances s s' [(sys_ioctl p (PPWDATA b), w)] /\
    ((o = Ret [] /\ 0 <= ret w) \/ (o = Throw msg_wdata /\ ret w < 0)).
Proof.
  intros Hd Hb Hi Hp Ho.
  unfold case_write. cbn [length]. destruct (decide _); [done|]. cbn.
  rewrite Hd, Hb. unfold bind at 1, get.
  destruct (Z.ltb_spec (writing_port_idx s) 0); [lia|].
  unfold bind at 1, index. rewrite Hp. unfold bind.
  destruct (writePort_cases k b p s Ho)
    as (o & s' & w & E & A & [[-> Hr]|[-> Hr]]); rewrite E.
  - eexists _, _, w. split; [reflexivity|]. split; [done|]. by left.
  - eexists _, _, w. split; [reflexivity|]. split; [done|]. by right.
Qed.

(** X5. [ppMEG('open', address)] that raises an error: a failed release or
    close leaves slot 0 with its open handle; a failed [open] or a failed
    claim leaves slot 0 not open, the failed call being the last one made.
    After a failed claim the descriptor [open] returned is neither stored
    nor closed. *)
Theorem open_address_failure
    (k : kernel) (rest a m : string) (s : state) (p0 : Z) :
  pports s !! 0%nat = Some p0 ->
  let r := mexFunction k [mxChar (String "o" rest); mxChar a] s in
  r.1 = Throw m ->
  ((m = msg_release \/ m = msg_close) /\
   is_open p0 = true /\ pports r.2 = pports s) \/
  (m = msg_open /\ pports r.2 !! 0%nat = Some (unloaded p0) /\
   exists evc o, since s r.2 = evc ++ [(sys_open a, o)] /\
     calls evc = closing p0 /\ ret o < 0) \/
  (m = msg_claim /\ pports r.2 !! 0%nat = Some (unloaded p0) /\
   exists evc o c,
     since s r.2 = evc ++ [(sys_open a, o); (sys_ioctl (ret o) PPCLAIM, c)] /\
     calls evc = closing p0 /\ 0 <= ret o /\ ret c < 0).
Proof.
  intros H0 r. subst r. rewrite mexFunction_o.
  destruct (open_address_outcomes k (mxChar (String "o" rest)) a s p0 H0)
    as (o & s' & evc & E & _ & _ &
        [(m' & -> & Hm & O0 & P & _)
        |[(C & F & P & r & Hr & -> & T)
         |[(C & F & P & r & c & Hr & Hc & -> & T)
          |(C & F & r & c & Hr & Hc & -> & P & T)]]]);
    rewrite E; cbn; intros [= <-].
  - by left.
  - right; left. split; [done|]. split; [done|].
    exists evc, r. split; [by apply since_app | done].
  - right; right. split; [done|]. split; [done|].
    exists evc, r, c. split; [by apply since_app | done].
Qed.

(** X6. Descriptor 0.  [openPort] takes any descriptor that is not
    negative for a success, and [writePort] and [readPort] take a handle
    for open only above 0.  So when [open] returns 0 and the claim
    succeeds, [ppMEG('open', address)] returns with the device open and
    claimed, yet slot 0 holds 0 and a following write or read raises
    "Parallel port was not opened" without a system call. *)
Theorem descriptor_zero_reads_as_not_opened
    (k : kernel) (rest a : string) (s : state) (p0 : Z) :
  pports s !! 0%nat = Some p0 ->
  let r := mexFunction k [mxChar (String "o" rest); mxChar a] s in
  r.1 = Ret [] ->
  (forall o, (sys_open a, o) ∈ since s r.2 -> ret o = 0) ->
  (exists o c, (sys_open a, o) ∈ since s r.2 /\
     (sys_ioctl 0 PPCLAIM, c) ∈ since s r.2 /\ 0 <= ret c) /\
  pports r.2 !! 0%nat = Some 0 /\
  (forall rest' arg d b,
     mxGetScalar arg = Some d -> to_uchar d = Some b ->
     mexFunction k [mxChar (String "w" rest'); arg] r.2
       = (Throw msg_not_opened, r.2)) /\
  (forall rest',
     mexFunction k [mxChar (String "r" rest')] r.2
       = (Throw msg_not_opened, r.2)).
Proof.
  intros H0 r. subst r. rewrite mexFunction_o.
  destruct (open_address_outcomes k (mxChar (String "o" rest)) a s p0 H0)
    as (o & s' & evc & E & M & _ &
        [(m' & -> & _)
        |[(_ & _ & _ & r & _ & -> & _)
         |[(_ & _ & _ & r & c & _ & _ & -> & _)
          |(C & F & r & c & Hr & Hc & -> & P & T)]]]);
    rewrite E; unfold registered; cbn [fst snd]; try discriminate.
  intros _ Hz.
  assert (Hs : since s (with_at_exit true s')
               = evc ++ [(sys_open a, r); (sys_ioctl (ret r) PPCLAIM, c)])
    by (by apply since_app).
  rewrite Hs in Hz |- *.
  assert (Z0 : ret r = 0).
  { apply Hz. apply elem_of_app. right. by left. }
  rewrite Z0 in *. injection M as Mu Mw.
  split.
  { exists r, c. split; [apply elem_of_app; right; by left|].
    split; [|done]. apply elem_of_app. right. right. by left. }
  split; [done|]. split.
  - intros rest' arg d b Hd Hb. rewrite mexFunction_w.
    rewrite (case_write_closed k _ arg d b 0); cbn; try done.
    + rewrite Mw. lia.
    + by rewrite Mw.
  - intros rest'. rewrite mexFunction_r.
    by rewrite (case_read_slot0_closed k _ 0).
Qed.

(** X7. After [ppMEG('open', address)] returned, [ppMEG('write', v)] makes
    one system call: [PPWDATA] with the byte of [v] on the descriptor that
    [open] returned for [address], whatever slots 1 and 2 hold. *)
Theorem write_after_open_address_goes_to_it
    (k : kernel) (rest rest' a : string) (arg : mxArray) (d : spec_float)
    (b p0 : Z) (s : state) :
  pports s !! 0%nat = Some p0 ->
  mxGetScalar arg = Some d -> to_uchar d = Some b ->
  let r := mexFunction k [mxChar (String "o" rest); mxChar a] s in
  r.1 = Ret [] ->
  exists o,
    (sys_open a, o) ∈ since s r.2 /\
    (0 < ret o ->
     exists w,
       since r.2 (mexFunction k [mxChar (String "w" rest'); arg] r.2).2
         = [(sys_ioctl (ret o) (PPWDATA b), w)]).
Proof.
  intros H0 Hd Hb r. subst r. rewrite mexFunction_o.
  destruct (open_address_outcomes k (mxChar (String "o" rest)) a s p0 H0)
    as (o & s' & evc & E & M & _ &
        [(m' & -> & _)
        |[(_ & _ & _ & r & _ & -> & _)
         |[(_ & _ & _ & r & c & _ & _ & -> & _)
          |(C & F & r & c & Hr & Hc & -> & P & T)]]]);
    rewrite E; unfold registered; cbn [fst snd]; try discriminate.
  intros _. exists r. split.
  { rewrite (since_app s (with_at_exit true s') _ T).
    apply elem_of_app. right. by left. }
  intros Hpos. injection M as Mu Mw. rewrite mexFunction_w.
  destruct (case_write_cases k (mxChar (String "w" rest')) arg d b (ret r)
              (with_at_exit true s'))
    as (o & s2 & w & E2 & [_ T2] & _); cbn; try done.
  - rewrite Mw. lia.
  - by rewrite Mw.
  - unfold is_open. by apply Z.ltb_lt.
  - exists w. rewrite E2.
    destruct o as [plhs|msg|]; cbn; by apply since_app.
Qed.

Section CloseFailure.

Variable k : kernel.

(** Where [unloadAll] stops when it raises. *)
Lemma unloadAll_throw p0 p1 p2 s m s' :
  pports s = [p0; p1; p2] ->
  unloadAll k s = (Throw m, s') ->
  modes s' = modes s /\ (m = msg_release \/ m = msg_close) /\
  exists i p evs e,
    [p0; p1; p2] !! i = Some p /\ is_open p = true /\
    pports s' = (unloaded <$> take i [p0; p1; p2]) ++ drop i [p0; p1; p2] /\
    trace s' = trace s ++ evs ++ [e] /\ ret e.2 < 0 /\ Forall succeeded evs /\
    (e.1 = sys_ioctl p PPRELEASE \/ e.1 = sys_close p).
Proof.
  intros Hpp. rewrite unloadAll_unfold.
  assert (Hfail : forall i s1 s2 pre p,
    statics s1 = ((unloaded <$> take i [p0; p1; p2]) ++ drop i [p0; p1; p2],
                  addresses s, use_multiple_ports s, writing_port_idx s) ->
    trace s1 = trace s ++ pre -> Forall succeeded pre ->
    [p0; p1; p2] !! i = Some p -> pports s1 !! i = Some p ->
    unload_slot k i s1 = (Throw m, s2) ->
    modes s2 = modes s /\ (m = msg_release \/ m = msg_close) /\
    exists i p evs e,
      [p0; p1; p2] !! i = Some p /\ is_open p = true /\
      pports s2 = (unloaded <$> take i [p0; p1; p2]) ++ drop i [p0; p1; p2] /\
      trace s2 = trace s ++ evs ++ [e] /\ ret e.2 < 0 /\ Forall succeeded evs /\
      (e.1 = sys_ioctl p PPRELEASE \/ e.1 = sys_close p)).
  { intros i s1 s2 pre p S1 T1 F1 Hi Hi1 E.
    destruct (unload_slot_throw k i s1 m s2 E) as (q & Hq & Oq & S2 & D).
    assert (q = p) by congruence. subst q.
    assert (M2 : modes s2 = modes s).
    { apply statics_inv in S2 as (_ & _ & ->). unfold statics in S1.
      unfold modes. by injection S1 as _ _ -> ->. }
    assert (P2 : pports s2 = (unloaded <$> take i [p0; p1; p2]) ++ drop i [p0; p1; p2]).
    { apply statics_inv in S2 as (-> & _). unfold statics in S1. by injection S1. }
    destruct D as [(-> & r & T2 & Hr)|(-> & r & c & T2 & Hr & Hc)].
    - split; [done|]. split; [by left|].
      exists i, p, pre, (sys_ioctl p PPRELEASE, r).
      repeat (split; [done|]). split; [by rewrite T2, T1, <- app_assoc|].
      split; [done|]. split; [done|]. by left.
    - split; [done|]. split; [by right|].
      exists i, p, (pre ++ [(sys_ioctl p PPRELEASE, r)]), (sys_close p, c).
      repeat (split; [done|]).
      split; [rewrite T2, T1, <- !app_assoc; done|].
      split; [done|]. split; [|by right].
      apply Forall_app. split; [done|]. by repeat constructor. }
  unfold bind at 1.
  destruct (unload_slot k 0 s) as [[[]|m0|] s0] eqn:E0.
  3:{ destruct (unload_slot_cases k 0 p0 s) as (? & ? & ? & E & _ & _ & _ & [(-> & _)|(? & -> & _)]);
        [by rewrite Hpp | congruence..]. }
  2:{ intros [= <- <-]. apply (Hfail 0%nat s s0 [] p0); try done.
      - unfold statics. by rewrite Hpp.
      - by rewrite app_nil_r.
      - by rewrite Hpp. }
  destruct (unload_slot_ret k 0 s s0 E0) as (q0 & ev0 & Hq0 & P0 & A0 & T0 & F0).
  rewrite Hpp in Hq0, P0. injection Hq0 as <-. cbn in P0.
  pose proof (preserves_unload_slot modes k 0 blind_modes (slot_blind_modes 0) s) as M0.
  rewrite E0 in M0. cbn in M0.
  unfold bind at 1.
  destruct (unload_slot k 1 s0) as [[[]|m1|] s1] eqn:E1.
  3:{ destruct (unload_slot_cases k 1 p1 s0) as (? & ? & ? & E & _ & _ & _ & [(-> & _)|(? & -> & _)]);
        [by rewrite P0 | congruence..]. }
  2:{ intros [= <- <-]. apply (Hfail 1%nat s0 s1 ev0 p1); try done.
      - unfold statics. rewrite P0, A0. unfold modes in M0. by injection M0 as -> ->.
      - by rewrite P0. }
  destruct (unload_slot_ret k 1 s0 s1 E1) as (q1 & ev1 & Hq1 & P1 & A1 & T1 & F1).
  rewrite P0 in Hq1, P1. injection Hq1 as <-. cbn in P1.
  pose proof (preserves_unload_slot modes k 1 blind_modes (slot_blind_modes 1) s0) as M1.
  rewrite E1 in M1. cbn in M1.
  unfold bind at 1.
  destruct (unload_slot k 2 s1) as [[[]|m2|] s2] eqn:E2; [done| |].
  2:{ destruct (unload_slot_cases k 2 p2 s1) as (? & ? & ? & E & _ & _ & _ & [(-> & _)|(? & -> & _)]);
        [by rewrite P1 | congruence..]. }
  intros [= <- <-]. apply (Hfail 2%nat s1 s2 (ev0 ++ ev1) p2); try done.
  - unfold statics. rewrite P1, A1, A0. unfold modes in M0, M1.
    injection M1 as -> ->. by injection M0 as -> ->.
  - by rewrite T1, T0, <- app_assoc.
  - by apply Forall_app.
  - by rewrite P1.
Qed.

Lemma case_close_run a0 s :
  case_close k [a0] s =
    match unloadAll k s with
    | (Ret _, s') =>
        (Ret [], with_writing_port_idx 1 (with_use_multiple_ports 1 s'))
    | (Throw msg, s') => (Throw msg, s')
    | (Undef, s') => (Undef, s')
    end.
Proof.
  rewrite case_close_unfold. unfold bind at 1.
  by destruct (unloadAll k s) as [[[]|msg|] s'].
Qed.

End CloseFailure.

(** X8. [ppMEG('close')] that raises an error: the error is that of a
    release or of a close, the failed call is the last one made, on the
    handle of an open slot.  The slots before it are closed, that slot and
    the slots after it keep their handles, and the mode flags are not
    reset. *)
Theorem close_failure_keeps_the_rest
    (k : kernel) (rest m : string) (s : state) (p0 p1 p2 : Z) :
  pports s = [p0; p1; p2] ->
  let r := mexFunction k [mxChar (String "c" rest)] s in
  r.1 = Throw m ->
  modes r.2 = modes s /\ (m = msg_release \/ m = msg_close) /\
  exists i p evs e,
    [p0; p1; p2] !! i = Some p /\ is_open p = true /\
    pports r.2 = (unloaded <$> take i [p0; p1; p2]) ++ drop i [p0; p1; p2] /\
    since s r.2 = evs ++ [e] /\ ret e.2 < 0 /\ Forall succeeded evs /\
    (e.1 = sys_ioctl p PPRELEASE \/ e.1 = sys_close p).
Proof.
  intros Hpp r. subst r. rewrite mexFunction_c, case_close_run.
  destruct (unloadAll k s) as [[[]|m'|] s'] eqn:E; cbn; try discriminate.
  intros [= <-].
  destruct (unloadAll_throw k p0 p1 p2 s m' s' Hpp E)
    as (M & Hm & i & p & evs & e & Hi & Ho & P & T & He & F & D).
  split; [exact M|]. split; [exact Hm|].
  exists i, p, evs, e. split; [exact Hi|]. split; [exact Ho|].
  split; [exact P|]. split; [by apply since_app | done].
Qed.

(** X9. A second [ppMEG('close')] after one that returned makes no system
    call and returns: closing is idempotent. *)
Theorem close_twice_is_quiet
    (k : kernel) (rest rest' : string) (s : state) (p0 p1 p2 : Z) :
  pports s = [p0; p1; p2] ->
  let r := mexFunction k [mxChar (String "c" rest)] s in
  r.1 = Ret [] ->
  let r' := mexFunction k [mxChar (String "c" rest')] r.2 in
  r'.1 = Ret [] /\ since r.2 r'.2 = [] /\ r'.2 = r.2.
Proof.
  intros Hpp r Hr r'. subst r r'. revert Hr.
  rewrite (mexFunction_c k rest), case_close_run.
  destruct (unloadAll_cases k p0 p1 p2 s Hpp)
    as (o & s' & evs & E & _ & _ & _ & [(-> & P & _)|(m & -> & _)]);
    rewrite E; unfold registered; cbn [fst snd]; [|discriminate].
  intros _.
  set (s1 := with_at_exit true
               (with_writing_port_idx 1 (with_use_multiple_ports 1 s'))).
  rewrite (mexFunction_c k rest'), case_close_run.
  rewrite (unloadAll_closed k (unloaded p0) (unloaded p1) (unloaded p2) s1);
    try apply unloaded_closed; [|done].
  cbn. split; [done|]. split; [by apply since_same|]. done.
Qed.

Section OpenAllSuccess.

Variable k : kernel.

(** A turn of the loop of [case 'o']: it returns after closing the slot,
    opening and claiming its address, or it stops at a failed call. *)
Lemma reopen_slot_cases i p a s :
  pports s !! i = Some p -> addresses s !! i = Some a ->
  exists o s' evs, reopen_slot k i s = (o, s') /\
    trace s' = trace s ++ evs /\
    addresses s' = addresses s /\ modes s' = modes s /\
    ((exists evc r c, o = Ret tt /\
        evs = evc ++ [(sys_open a, r); (sys_ioctl (ret r) PPCLAIM, c)] /\
        calls evc = closing p /\
        pports s' = <[i := ret r]> (pports s)) \/
     (exists m, o = Throw m /\ aborted (trace s) (trace s'))).
Proof.
  intros Hp Ha. unfold reopen_slot. unfold bind at 1.
  destruct (unload_slot_cases k i p s Hp)
    as (o1 & s1 & ev1 & E1 & T1 & A1 & M1 & [(-> & P1 & C1 & F1)|(m & -> & _ & _ & Hab)]);
    rewrite E1.
  2:{ exists (Throw m), s1, ev1. repeat (split; [done|]). right. by exists m. }
  unfold bind at 1, index. rewrite A1, Ha. unfold bind at 1.
  destruct (openPort_cases k a s1)
    as (o2 & s2 & ev2 & E2 & [S2 T2] & [(r & c & -> & -> & F2)|(m & -> & Hab)]);
    rewrite E2; apply statics_inv in S2 as (P2 & A2 & M2).
  - unfold set_pport.
    destruct (decide _) as [_|Hn].
    2:{ rewrite P2, P1, length_insert in Hn. by apply lookup_lt_Some in Hp. }
    eexists (Ret tt), _, (ev1 ++ _). split; [reflexivity|]. cbn.
    split; [by rewrite T2, T1, <- app_assoc|].
    split; [congruence|]. split.
    { change (modes s2 = modes s). congruence. }
    left. exists ev1, r, c. split; [done|]. split; [done|]. split; [done|].
    by rewrite P2, P1, list_insert_insert_eq.
  - exists (Throw m), s2, (ev1 ++ ev2). split; [done|].
    split; [by rewrite T2, T1, <- app_assoc|].
    split; [congruence|]. split; [congruence|]. right. exists m.
    split; [done|]. rewrite T1 in Hab. by apply aborted_later in Hab.
Qed.

Lemma case_open_all a0 s :
  case_open k [a0] s =
    (reopen_slot k 0 ;;; reopen_slot k 1 ;;; reopen_slot k 2 ;;; ret_ [])%prog s.
Proof.
  unfold case_open. cbn [length]. destruct (decide _); [|done].
  cbn [for_each seq]. unfold bind.
  destruct (reopen_slot k 0 s) as [[[]|?|] s0]; [|done..].
  destruct (reopen_slot k 1 s0) as [[[]|?|] s1]; [|done..].
  by destruct (reopen_slot k 2 s1) as [[[]|?|] s2].
Qed.

(** Every way [ppMEG('open')] ends when the arrays hold three entries. *)
Lemma open_all_cases a' p0 p1 p2 a0 a1 a2 s :
  pports s = [p0; p1; p2] -> addresses s = [a0; a1; a2] ->
  exists o s' evs, case_open k [a'] s = (o, s') /\
    trace s' = trace s ++ evs /\
    addresses s' = addresses s /\ modes s' = modes s /\
    ((exists e0 e1 e2 o0 o1 o2 c0 c1 c2, o = Ret [] /\
        evs = (e0 ++ [(sys_open a0, o0); (sys_ioctl (ret o0) PPCLAIM, c0)]) ++
              (e1 ++ [(sys_open a1, o1); (sys_ioctl (ret o1) PPCLAIM, c1)]) ++
              (e2 ++ [(sys_open a2, o2); (sys_ioctl (ret o2) PPCLAIM, c2)]) /\
        calls e0 = closing p0 /\ calls e1 = closing p1 /\ calls e2 = closing p2 /\
        pports s' = [ret o0; ret o1; ret o2]) \/
     (exists m, o = Throw m /\ aborted (trace s) (trace s'))).
Proof.
  intros Hpp Had. rewrite case_open_all. unfold bind at 1.
  destruct (reopen_slot_cases 0 p0 a0 s)
    as (o & s0 & ev0 & E0 & T0 & A0 & M0 & [(e0 & o0 & c0 & -> & Hev0 & C0 & P0)|(m & -> & Hab)]);
    [by rewrite Hpp | by rewrite Had | |]; rewrite E0.
  2:{ exists (Throw m), s0, ev0. split; [done|]. repeat (split; [done|]).
      right. by exists m. }
  rewrite Hpp in P0. cbn in P0. unfold bind at 1.
  destruct (reopen_slot_cases 1 p1 a1 s0)
    as (o & s1 & ev1 & E1 & T1 & A1 & M1 & [(e1 & o1 & c1 & -> & Hev1 & C1 & P1)|(m & -> & Hab)]);
    [by rewrite P0 | by rewrite A0, Had | |]; rewrite E1.
  2:{ exists (Throw m), s1, (ev0 ++ ev1). split; [done|].
      split; [by rewrite T1, T0, <- app_assoc|].
      split; [by rewrite A1|]. split; [by rewrite M1|]. right. exists m.
      split; [done|]. rewrite T0 in Hab. by apply aborted_later in Hab. }
  rewrite P0 in P1. cbn in P1. unfold bind at 1.
  destruct (reopen_slot_cases 2 p2 a2 s1)
    as (o & s2 & ev2 & E2 & T2 & A2 & M2 & [(e2 & o2 & c2 & -> & Hev2 & C2 & P2)|(m & -> & Hab)]);
    [by rewrite P1 | by rewrite A1, A0, Had | |]; rewrite E2.
  2:{ exists (Throw m), s2, (ev0 ++ ev1 ++ ev2). split; [done|].
      split; [by rewrite T2, T1, T0, <- !app_assoc|].
      split; [by rewrite A2, A1|]. split; [by rewrite M2, M1|]. right. exists m.
      split; [done|]. rewrite T1, T0 in Hab. by do 2 apply aborted_later in Hab. }
  rewrite P1 in P2. cbn in P2.
  exists (Ret []), s2, (ev0 ++ ev1 ++ ev2). split; [done|].
  split; [by rewrite T2, T1, T0, <- !app_assoc|].
  split; [by rewrite A2, A1|]. split; [by rewrite M2, M1|]. left.
  exists e0, e1, e2, o0, o1, o2, c0, c1, c2.
  split; [done|]. split; [by rewrite Hev0, Hev1, Hev2|]. done.
Qed.

End OpenAllSuccess.

(** X10. [ppMEG('open')] when every system call of the run succeeded: the
    call returns; for slot 0, then 1, then 2 it closed the slot if it was
    open, opened the slot's address and claimed the descriptor, and these
    are all the calls it made; the three slots hold the three descriptors
    [open] returned; the addresses and the mode flags are as before. *)
Theorem open_all_reopens_every_slot
    (k : kernel) (rest : string) (s : state)
    (p0 p1 p2 : Z) (a0 a1 a2 : string) :
  pports s = [p0; p1; p2] -> addresses s = [a0; a1; a2] ->
  let r := mexFunction k [mxChar (String "o" rest)] s in
  Forall succeeded (since s r.2) ->
  exists e0 e1 e2 o0 o1 o2 c0 c1 c2,
    r.1 = Ret [] /\
    since s r.2 =
      (e0 ++ [(sys_open a0, o0); (sys_ioctl (ret o0) PPCLAIM, c0)]) ++
      (e1 ++ [(sys_open a1, o1); (sys_ioctl (ret o1) PPCLAIM, c1)]) ++
      (e2 ++ [(sys_open a2, o2); (sys_ioctl (ret o2) PPCLAIM, c2)]) /\
    calls e0 = closing p0 /\ calls e1 = closing p1 /\ calls e2 = closing p2 /\
    pports r.2 = [ret o0; ret o1; ret o2] /\
    addresses r.2 = addresses s /\ modes r.2 = modes s.
Proof.
  intros Hpp Had r. subst r. rewrite mexFunction_o.
  destruct (open_all_cases k (mxChar (String "o" rest)) p0 p1 p2 a0 a1 a2 s Hpp Had)
    as (o & s' & evs & E & T & A & M &
        [(e0 & e1 & e2 & o0 & o1 & o2 & c0 & c1 & c2 & -> & -> & C0 & C1 & C2 & P)
        |(m & -> & Hab)]);
    rewrite E; unfold registered; cbn [fst snd]; intros Hall.
  - exists e0, e1, e2, o0, o1, o2, c0, c1, c2.
    split; [done|]. split; [by apply since_app|]. done.
  - exfalso. by apply (aborted_not_succeeded s s').
Qed.

(** X12. [ppMEG('write', ...)] never changes the handles, the addresses or
    the mode flags, whatever its arguments and its outcome: after a failed
    [PPWDATA] the port is still open and the write can be tried again. *)
Theorem write_keeps_the_ports
    (k : kernel) (rest : string) (args : list mxArray) (s : state) :
  statics (mexFunction k (mxChar (String "w" rest) :: args) s).2 = statics s.
Proof.
  rewrite mexFunction_w.
  pose proof (preserves_case_write statics k (mxChar (String "w" rest) :: args)
                blind_statics s) as H.
  by destruct (case_write _ _ s) as [[plhs|msg|] s'].
Qed.

(** ** The further properties at work on the test double *)

Lemma reachable_states_well_formed_witness :
  length (pports opened_one) = 3%nat /\
  Forall (fun p => 0 <= p) (pports opened_one) /\
  addresses opened_one = ["/dev/parport0"; "/dev/parport1"; "/dev/parport4"] /\
  (writing_port_idx opened_one = 0 \/ writing_port_idx opened_one = 1).
Proof.
  apply (reachable_states_well_formed three_ports).
  apply (reach_call three_ports initial [mxChar "open"; mxChar "/dev/parport1"]).
  apply reach_initial.
Defined.


Lemma wrong_argument_count_is_rejected_witness :
  mexFunction three_ports [mxChar "read"; double_of_byte 1] opened_all
    = (Throw msg_nargs_read, opened_all) /\
  mexFunction three_ports [mxChar "write"] opened_all
    = (Throw msg_nargs_write, opened_all).
Proof.
  split.
  - apply (wrong_argument_count_is_rejected three_ports "read"
             [double_of_byte 1] opened_all); [reflexivity | cbn; lia].
  - apply (wrong_argument_count_is_rejected three_ports "write" [] opened_all);
      [reflexivity | cbn; lia].
Defined.

Lemma open_address_failure_witness :
  (exists evc o c,
     since opened_all
       (mexFunction claim_refused [mxChar "open"; mxChar "/dev/parport1"]
          opened_all).2
     = evc ++ [(sys_open "/dev/parport1", o); (sys_ioctl (ret o) PPCLAIM, c)] /\
     calls evc = closing 3 /\ 0 <= ret o /\ ret c < 0) /\
  pports
    (mexFunction claim_refused [mxChar "open"; mxChar "/dev/parport1"]
       opened_all).2 !! 0%nat = Some 0.
Proof.
  destruct (open_address_failure claim_refused "pen" "/dev/parport1" msg_claim
              opened_all 3)
    as [([H|H] & _)|[(H & _)|(_ & P & H)]];
    try reflexivity; try discriminate.
  split; [exact H | exact P].
Defined.

Lemma descriptor_zero_reads_as_not_opened_witness :
  pports (mexFunction descriptor_zero [mxChar "open"; mxChar "/dev/parport1"]
            initial).2 !! 0%nat = Some 0 /\
  mexFunction descriptor_zero [mxChar "write"; double_of_byte 200]
    (mexFunction descriptor_zero [mxChar "open"; mxChar "/dev/parport1"]
       initial).2
  = (Throw msg_not_opened,
     (mexFunction descriptor_zero [mxChar "open"; mxChar "/dev/parport1"]
        initial).2).
Proof.
  destruct (descriptor_zero_reads_as_not_opened descriptor_zero "pen"
              "/dev/parport1" initial 0)
    as (_ & P & W & _); try reflexivity.
  { intros o Ho. vm_compute in Ho.
    apply elem_of_cons in Ho as [[= ->]|Ho]; [reflexivity|].
    apply elem_of_cons in Ho as [[=]|Ho]. by apply elem_of_nil in Ho. }
  split; [exact P|].
  apply (W "rite" _ (S754_finite false 200 0) 200); reflexivity.
Defined.

Lemma write_after_open_address_goes_to_it_witness :
  exists o,
    (sys_open "/dev/parport1", o)
      ∈ since opened_all
          (mexFunction three_ports [mxChar "open"; mxChar "/dev/parport1"]
             opened_all).2 /\
    (0 < ret o ->
     exists w,
       since
         (mexFunction three_ports [mxChar "open"; mxChar "/dev/parport1"]
            opened_all).2
         (mexFunction three_ports [mxChar "write"; double_of_byte 200]
            (mexFunction three_ports [mxChar "open"; mxChar "/dev/parport1"]
               opened_all).2).2
       = [(sys_ioctl (ret o) (PPWDATA 200), w)]).
Proof.
  apply (write_after_open_address_goes_to_it three_ports "pen" "rite"
           "/dev/parport1" (double_of_byte 200) (S754_finite false 200 0)
           200 3 opened_all); reflexivity.
Defined.

Lemma close_failure_keeps_the_rest_witness :
  modes
    (mexFunction (release_refused 4) [mxChar "close"]
       (session (release_refused 4) [[mxChar "open"]] initial)).2
  = modes (session (release_refused 4) [[mxChar "open"]] initial) /\
  (msg_release = msg_release \/ msg_release = msg_close) /\
  exists i p evs e,
    [3; 4; 5] !! i = Some p /\ is_open p = true /\
    pports
      (mexFunction (release_refused 4) [mxChar "close"]
         (session (release_refused 4) [[mxChar "open"]] initial)).2
    = (unloaded <$> take i [3; 4; 5]) ++ drop i [3; 4; 5] /\
    since (session (release_refused 4) [[mxChar "open"]] initial)
      (mexFunction (release_refused 4) [mxChar "close"]
         (session (release_refused 4) [[mxChar "open"]] initial)).2
    = evs ++ [e] /\
    ret e.2 < 0 /\ Forall succeeded evs /\
    (e.1 = sys_ioctl p PPRELEASE \/ e.1 = sys_close p).
Proof.
  apply (close_failure_keeps_the_rest (release_refused 4) "lose" msg_release
           (session (release_refused 4) [[mxChar "open"]] initial) 3 4 5);
    reflexivity.
Defined.

Lemma close_twice_is_quiet_witness :
  (mexFunction three_ports [mxChar "close"]
     (mexFunction three_ports [mxChar "close"] opened_all).2).1 = Ret [] /\
  since (mexFunction three_ports [mxChar "close"] opened_all).2
    (mexFunction three_ports [mxChar "close"]
       (mexFunction three_ports [mxChar "close"] opened_all).2).2 = [].
Proof.
  destruct (close_twice_is_quiet three_ports "lose" "lose" opened_all 3 4 5)
    as (H1 & H2 & _); try reflexivity.
  split; [exact H1 | exact H2].
Defined.

Lemma open_all_reopens_every_slot_witness :
  exists e0 e1 e2 o0 o1 o2 c0 c1 c2,
    (mexFunction three_ports [mxChar "open"] opened_one).1 = Ret [] /\
    since opened_one (mexFunction three_ports [mxChar "open"] opened_one).2 =
      (e0 ++ [(sys_open "/dev/parport0", o0); (sys_ioctl (ret o0) PPCLAIM, c0)]) ++
      (e1 ++ [(sys_open "/dev/parport1", o1); (sys_ioctl (ret o1) PPCLAIM, c1)]) ++
      (e2 ++ [(sys_open "/dev/parport4", o2); (sys_ioctl (ret o2) PPCLAIM, c2)]) /\
    calls e0 = closing 3 /\ calls e1 = closing 0 /\ calls e2 = closing 0 /\
    pports (mexFunction three_ports [mxChar "open"] opened_one).2
      = [ret o0; ret o1; ret o2] /\
    addresses (mexFunction three_ports [mxChar "open"] opened_one).2
      = addresses opened_one /\
    modes (mexFunction three_ports [mxChar "open"] opened_one).2
      = modes opened_one.
Proof.
  apply (open_all_reopens_every_slot three_ports "pen" opened_one 3 0 0
           "/dev/parport0" "/dev/parport1" "/dev/parport4");
    [reflexivity | reflexivity | all_succeeded].
Defined.

Lemma write_sends_integral_part_witness :
  exists o s' r,
    mexFunction three_ports [mxChar "write"; double_of_byte 200] opened_all
      = (o, s') /\
    since opened_all s' = [(sys_ioctl 4 (PPWDATA 200), r)] /\
    statics s' = statics opened_all /\
    ((o = Ret [] /\ 0 <= ret r) \/ (o = Throw msg_wdata /\ ret r < 0)).
Proof.
  apply (write_sends_integral_part three_ports "rite" (double_of_byte 200)
           (S754_finite false 200 0) 200 4 opened_all); try reflexivity.
  vm_compute. discriminate.
Defined.
